(** * Workspace list controllers: Knowledge.svelte and Chats.svelte

    A shallow embedding of the script blocks of
    [src/lib/components/workspace/Knowledge.svelte] (debounced, paged search)
    and [src/lib/components/workspace/Chats.svelte] (local filter and sort,
    tag editing), together with the small part of the JavaScript run time the
    two components rely on: strings, arrays held by reference, timers and
    pending promises.

    Asynchronous functions are cut at their [await]s: the part before the
    [await] issues the request, the part after it is a continuation that runs
    when the environment settles the request.  Both components keep all their
    state in top-level [let] variables, so a continuation reads whatever the
    variables hold when it runs. *)

From Stdlib Require Import ZArith List String Ascii Bool Lia Permutation.
From stdpp Require Import gmap.
Import ListNotations.

Local Open Scope Z_scope.

(* ------------------------------------------------------------------------- *)
(** ** JavaScript values and strings *)

Module JS.

(** A variable that may hold [null], [undefined] or a value. *)
Inductive js (A : Type) : Type :=
| null
| undefined
| val (a : A).
Arguments null {A}.
Arguments undefined {A}.
Arguments val {A} a.

(** [x === null] *)
Definition is_null {A} (x : js A) : bool :=
  match x with null => true | _ => false end.

(** [x ?? d] *)
Definition nullish {A} (x : js A) (d : A) : A :=
  match x with val a => a | _ => d end.

(** Strings are sequences of code units; the model keeps the code units below
    256 (Latin-1), which is what [Ascii.ascii] can hold. *)

(** ToBoolean of a string: every string but the empty one is truthy. *)
Definition truthy (s : string) : bool :=
  match s with EmptyString => false | String _ _ => true end.

(** WhiteSpace and LineTerminator code units below 256:
    TAB, LF, VT, FF, CR, SP and NBSP. *)
Definition is_white_space (c : ascii) : bool :=
  let n := N_of_ascii c in
  ((n =? 9) || (n =? 10) || (n =? 11) || (n =? 12) || (n =? 13)
   || (n =? 32) || (n =? 160))%N.

Fixpoint trimStart (s : string) : string :=
  match s with
  | EmptyString => EmptyString
  | String c s' => if is_white_space c then trimStart s' else s
  end.

Fixpoint trimEnd (s : string) : string :=
  match s with
  | EmptyString => EmptyString
  | String c s' =>
      match trimEnd s' with
      | EmptyString => if is_white_space c then EmptyString else String c EmptyString
      | r => String c r
      end
  end.

(** [String.prototype.trim] *)
Definition trim (s : string) : string := trimEnd (trimStart s).

(** Lower-case mapping of one code unit below 256: A-Z and the Latin-1
    capitals U+00C0-U+00DE (U+00D7, the multiplication sign, has no case). *)
Definition lower_char (c : ascii) : ascii :=
  let n := N_of_ascii c in
  if (((65 <=? n) && (n <=? 90))
      || ((192 <=? n) && (n <=? 222) && negb (n =? 215)))%N
  then ascii_of_N (n + 32) else c.

(** [String.prototype.toLowerCase] *)
Fixpoint toLowerCase (s : string) : string :=
  match s with
  | EmptyString => EmptyString
  | String c s' => String (lower_char c) (toLowerCase s')
  end.

(** [String.prototype.includes]: is [sub] found at some position of [s]? *)
Fixpoint includes (s sub : string) : bool :=
  String.prefix sub s
  || match s with
     | EmptyString => false
     | String _ s' => includes s' sub
     end.

(** [Array.prototype.join] on an array of strings. *)
Fixpoint join (sep : string) (l : list string) : string :=
  match l with
  | [] => EmptyString
  | [x] => x
  | x :: rest => (x ++ sep ++ join sep rest)%string
  end.

(** [Array.prototype.includes] on an array of strings. *)
Definition array_includes (l : list string) (x : string) : bool :=
  existsb (String.eqb x) l.

(** [Array.from(new Set(l))]: a Set keeps the first occurrence of each value,
    in insertion order. *)
Definition set_add (acc : list string) (x : string) : list string :=
  if array_includes acc x then acc else acc ++ [x].

Definition from_set (l : list string) : list string :=
  fold_left set_add l [].

(** [Array.prototype.sort(cmp)] sorts stably; [x] goes before the first
    element it does not compare greater than. *)
Section Sort.
Context {A : Type} (cmp : A -> A -> Z).

Fixpoint insert_sorted (x : A) (l : list A) : list A :=
  match l with
  | [] => [x]
  | y :: ys => if cmp x y <=? 0 then x :: y :: ys else y :: insert_sorted x ys
  end.

Fixpoint sort (l : list A) : list A :=
  match l with
  | [] => []
  | x :: xs => insert_sorted x (sort xs)
  end.
End Sort.

(** [sub] occurs in [s]. *)
Definition Substring (sub s : string) : Prop :=
  exists pre post : string, s = (pre ++ sub ++ post)%string.

End JS.

(* ------------------------------------------------------------------------- *)
(** ** Timers: [setTimeout] and [clearTimeout] *)

Module Timers.

Section Env.
Context {A : Type}.

(** A pending timer: the handle [setTimeout] returned, the time at which it
    is due, and the callback it was given. *)
Record Timer := { handle : positive; deadline : Z; callback : A }.

Record Env := { now : Z; next_handle : positive; pending : list Timer }.

Definition start : Env := {| now := 0; next_handle := 1; pending := [] |}.

(** Handles are positive integers, so a handle is always truthy.  A negative
    delay counts as zero. *)
Definition setTimeout (cb : A) (delay : Z) (e : Env) : positive * Env :=
  (next_handle e,
   {| now := now e;
      next_handle := Pos.succ (next_handle e);
      pending := pending e ++ [ {| handle := next_handle e;
                                   deadline := now e + Z.max 0 delay;
                                   callback := cb |} ] |}).

Definition clearTimeout (h : positive) (e : Env) : Env :=
  {| now := now e;
     next_handle := next_handle e;
     pending := List.filter (fun t => negb (Pos.eqb (handle t) h)) (pending e) |}.

Definition due (t : Z) (x : Timer) : bool := deadline x <=? t.

(** [dt] milliseconds pass: the timers that fall due fire, earliest deadline
    first and in creation order among equal deadlines; their callbacks are
    handed to the owner in firing order. *)
Definition elapse (dt : Z) (e : Env) : list A * Env :=
  let t := now e + dt in
  (map callback
     (JS.sort (fun x y => deadline x - deadline y) (List.filter (due t) (pending e))),
   {| now := t;
      next_handle := next_handle e;
      pending := List.filter (fun x => negb (due t x)) (pending e) |}).

(** [debounceSearch] of both components, on the timer variable
    [searchDebounceTimer] and the timer environment. *)
Definition debounceSearch (cb : A) (delay : Z) (st : option positive * Env)
  : option positive * Env :=
  let e1 := match fst st with
            | Some h => clearTimeout h (snd st)
            | None => snd st
            end in
  let '(h, e2) := setTimeout cb delay e1 in
  (Some h, e2).

(** The clean-up both [onDestroy] and the filter change perform. *)
Definition cancel (st : option positive * Env) : option positive * Env :=
  match fst st with
  | Some h => (None, clearTimeout h (snd st))
  | None => st
  end.

(** A burst of [debounceSearch] calls; each call comes with the time that
    has passed since the previous one.  The callbacks that fire on the way
    are collected. *)
Fixpoint burst (delay : Z) (calls : list (Z * A)) (st : option positive * Env)
  : list A * (option positive * Env) :=
  match calls with
  | [] => ([], st)
  | (gap, cb) :: rest =>
      let '(fired, e1) := elapse gap (snd st) in
      let '(fired', st') := burst delay rest (debounceSearch cb delay (fst st, e1)) in
      (fired ++ fired', st')
  end.
End Env.

Arguments Timer : clear implicits.
Arguments Env : clear implicits.

End Timers.

(* ------------------------------------------------------------------------- *)
(** ** Knowledge.svelte *)

Module Knowledge.
Import JS.

(** A knowledge base as the list shows it. *)
Record Item := { item_id : string; item_name : string }.

(** What [searchKnowledgeBases] resolves with: [{ items, total }]. *)
Record SearchResult := { res_items : list Item; res_total : Z }.

(** How a pending [searchKnowledgeBases] call settles.  A fulfilled call may
    carry no result object. *)
Inductive Settled :=
| Fulfilled (r : option SearchResult)
| Rejected.

(** The value bound to [res] in [getItemsPage]. *)
Inductive Res :=
| ResNull
| ResObject (r : SearchResult)
| ResEmptyArray.

(** [.catch(() => { return []; })]: a rejection becomes an empty array. *)
Definition caught (s : Settled) : Res :=
  match s with
  | Fulfilled (Some r) => ResObject r
  | Fulfilled None => ResNull
  | Rejected => ResEmptyArray
  end.

(** [if (res)]: [null] is falsy, every object is truthy, arrays included. *)
Definition res_truthy (r : Res) : bool :=
  match r with ResNull => false | _ => true end.

(** [res.total] and [res.items]; an array has neither property. *)
Definition total_of (r : Res) : js Z :=
  match r with ResObject o => val (res_total o) | _ => undefined end.

Definition items_of (r : Res) : js (list Item) :=
  match r with ResObject o => val (res_items o) | _ => undefined end.

(** How a piece of code ends: normally, or by throwing a TypeError. *)
Inductive Completion := Normal | TypeError.

(** The paging variables. *)
Record Paging := {
  page : Z;
  items : js (list Item);
  total : js Z;
  allItemsLoaded : bool;
  itemsLoading : bool;
  hasLoadedInitialPage : bool
}.

Definition set_page (v : Z) (p : Paging) : Paging :=
  {| page := v; items := items p; total := total p;
     allItemsLoaded := allItemsLoaded p; itemsLoading := itemsLoading p;
     hasLoadedInitialPage := hasLoadedInitialPage p |}.

Definition set_items (v : js (list Item)) (p : Paging) : Paging :=
  {| page := page p; items := v; total := total p;
     allItemsLoaded := allItemsLoaded p; itemsLoading := itemsLoading p;
     hasLoadedInitialPage := hasLoadedInitialPage p |}.

Definition set_total (v : js Z) (p : Paging) : Paging :=
  {| page := page p; items := items p; total := v;
     allItemsLoaded := allItemsLoaded p; itemsLoading := itemsLoading p;
     hasLoadedInitialPage := hasLoadedInitialPage p |}.

Definition set_allItemsLoaded (v : bool) (p : Paging) : Paging :=
  {| page := page p; items := items p; total := total p;
     allItemsLoaded := v; itemsLoading := itemsLoading p;
     hasLoadedInitialPage := hasLoadedInitialPage p |}.

Definition set_itemsLoading (v : bool) (p : Paging) : Paging :=
  {| page := page p; items := items p; total := total p;
     allItemsLoaded := allItemsLoaded p; itemsLoading := v;
     hasLoadedInitialPage := hasLoadedInitialPage p |}.

Definition set_hasLoadedInitialPage (v : bool) (p : Paging) : Paging :=
  {| page := page p; items := items p; total := total p;
     allItemsLoaded := allItemsLoaded p; itemsLoading := itemsLoading p;
     hasLoadedInitialPage := v |}.

(** The search variables. *)
Record Search := {
  loaded : bool;
  query : string;
  viewOption : string;
  searchDebounceTimer : option positive;
  lastQuery : string;
  lastViewOption : string;
  isInitialLoad : bool
}.

(** A request handed to [searchKnowledgeBases]: its arguments and, for the
    statements below only, the number of [init] calls made when it was sent.
    The component keeps no such number; no transition reads it. *)
Record Request := {
  rq_query : string;
  rq_viewOption : string;
  rq_page : Z;
  rq_epoch : nat
}.

(** The component and its surroundings: the variables, the timers, the
    requests that have not settled yet, and three records for the statements:
    every request sent so far, the number of [init] calls, and the number of
    exceptions nobody caught. *)
Record World := {
  paging : Paging;
  search : Search;
  timers : Timers.Env unit;
  inflight : list Request;
  issued : list Request;
  epoch : nat;
  uncaught : nat
}.

Definition set_paging (p : Paging) (w : World) : World :=
  {| paging := p; search := search w; timers := timers w;
     inflight := inflight w; issued := issued w; epoch := epoch w;
     uncaught := uncaught w |}.

Definition set_search (s : Search) (w : World) : World :=
  {| paging := paging w; search := s; timers := timers w;
     inflight := inflight w; issued := issued w; epoch := epoch w;
     uncaught := uncaught w |}.

Definition set_timers (e : Timers.Env unit) (w : World) : World :=
  {| paging := paging w; search := search w; timers := e;
     inflight := inflight w; issued := issued w; epoch := epoch w;
     uncaught := uncaught w |}.

(** The [let] declarations at the top of the script. *)
Definition initial : World :=
  {| paging := {| page := 1; items := null; total := null;
                  allItemsLoaded := false; itemsLoading := false;
                  hasLoadedInitialPage := false |};
     search := {| loaded := false; query := ""; viewOption := "";
                  searchDebounceTimer := None; lastQuery := "";
                  lastViewOption := ""; isInitialLoad := true |};
     timers := Timers.start;
     inflight := []; issued := []; epoch := 0; uncaught := 0 |}.

Definition reset (w : World) : World :=
  set_paging {| page := 1; items := null; total := null;
                allItemsLoaded := false; itemsLoading := false;
                hasLoadedInitialPage := false |} w.

(** [getItemsPage] up to its [await]: the loading flag is raised and the
    request leaves with the current [query], [viewOption] and [page]. *)
Definition getItemsPage_call (w : World) : World :=
  let rq := {| rq_query := query (search w);
               rq_viewOption := viewOption (search w);
               rq_page := page (paging w);
               rq_epoch := epoch w |} in
  {| paging := set_itemsLoading true (paging w);
     search := search w; timers := timers w;
     inflight := inflight w ++ [rq];
     issued := issued w ++ [rq];
     epoch := epoch w; uncaught := uncaught w |}.

(** [items.length >= total]; reading [length] of [null] or [undefined] throws,
    [null] converts to 0 and [undefined] to NaN, which compares false. *)
Definition length_ge (its : js (list Item)) (t : js Z) : option bool :=
  match its with
  | val l =>
      Some match t with
           | val n => n <=? Z.of_nat (length l)
           | null => true
           | undefined => false
           end
  | _ => None
  end.

(** [(pageItems ?? []).length === 0 || (total !== null && items.length >= total)] *)
Definition all_loaded_test (pageItems : js (list Item)) (p : Paging) : option bool :=
  if (length (nullish pageItems []) =? 0)%nat then Some true
  else if is_null (total p) then Some false
  else length_ge (items p) (total p).

(** [if (items) items = [...items, ...pageItems]; else items = pageItems;]
    An array is truthy even when empty; spreading [null] or [undefined]
    throws. *)
Definition append_page (its pageItems : js (list Item)) : option (js (list Item)) :=
  match its with
  | val l =>
      match pageItems with
      | val more => Some (val (l ++ more))
      | _ => None
      end
  | _ => Some pageItems
  end.

(** [getItemsPage] after its [await], on the value [res]. *)
Definition getItemsPage_resume (res : Res) (p : Paging) : Paging * Completion :=
  if res_truthy res then
    let p1 := set_total (total_of res) p in
    let pageItems := items_of res in
    match append_page (items p1) pageItems with
    | None => (p1, TypeError)
    | Some its =>
        let p2 := set_items its p1 in
        match all_loaded_test pageItems p2 with
        | None => (p2, TypeError)
        | Some b =>
            let p3 := set_allItemsLoaded b p2 in
            let p4 := if page p3 =? 1 then set_hasLoadedInitialPage true p3 else p3 in
            (set_itemsLoading false p4, Normal)
        end
    end
  else (set_itemsLoading false p, Normal).

(** [l] without its [i]-th element. *)
Fixpoint remove_nth {A} (i : nat) (l : list A) : list A :=
  match l, i with
  | [], _ => []
  | _ :: xs, O => xs
  | x :: xs, S j => x :: remove_nth j xs
  end.

(** The [i]-th pending request settles and [getItemsPage] resumes.  An
    exception leaves the async function by its promise, which no caller
    handles. *)
Definition getItemsPage_settle (i : nat) (s : Settled) (w : World) : World :=
  match nth_error (inflight w) i with
  | None => w
  | Some _ =>
      let '(p, c) := getItemsPage_resume (caught s) (paging w) in
      {| paging := p; search := search w; timers := timers w;
         inflight := remove_nth i (inflight w);
         issued := issued w; epoch := epoch w;
         uncaught := match c with
                     | Normal => uncaught w
                     | TypeError => S (uncaught w)
                     end |}
  end.

Definition loadMoreItems (w : World) : World :=
  let p := paging w in
  if allItemsLoaded p || itemsLoading p then w
  else if negb (hasLoadedInitialPage p) || is_null (items p) then w
  else getItemsPage_call (set_paging (set_page (page p + 1) p) w).

Definition init (w : World) : World :=
  getItemsPage_call
    (reset {| paging := paging w; search := search w; timers := timers w;
              inflight := inflight w; issued := issued w;
              epoch := S (epoch w); uncaught := uncaught w |}).

(** The callback handed to [debounceSearch]. *)
Definition debounced (w : World) : World :=
  if (query (search w) =? lastQuery (search w))%string then init w else w.

(** [$: if (loaded && query !== undefined && !isInitialLoad) ...] *)
Definition react_query (w : World) : World :=
  let s := search w in
  if loaded s && negb (isInitialLoad s) then
    if negb (query s =? lastQuery s)%string then
      let '(h, e) := Timers.debounceSearch tt 500 (searchDebounceTimer s, timers w) in
      set_timers e
        (set_search {| loaded := loaded s; query := query s;
                       viewOption := viewOption s;
                       searchDebounceTimer := h;
                       lastQuery := query s;
                       lastViewOption := lastViewOption s;
                       isInitialLoad := isInitialLoad s |} w)
    else w
  else w.

(** [$: if (loaded && viewOption !== undefined && viewOption !== lastViewOption
    && !isInitialLoad) ...] *)
Definition react_viewOption (w : World) : World :=
  let s := search w in
  if loaded s && negb (viewOption s =? lastViewOption s)%string
     && negb (isInitialLoad s) then
    let '(h, e) := Timers.cancel (searchDebounceTimer s, timers w) in
    init (set_timers e
            (set_search {| loaded := loaded s; query := query s;
                           viewOption := viewOption s;
                           searchDebounceTimer := h;
                           lastQuery := lastQuery s;
                           lastViewOption := viewOption s;
                           isInitialLoad := isInitialLoad s |} w))
  else w.

(** After an event that assigned to a variable the reactive statements run,
    in the order of the source.  Each of the two carries its own test for a
    change, so running one whose variables are unchanged does nothing. *)
Definition flush (w : World) : World := react_viewOption (react_query w).

(** [onMount]; [stored] is [localStorage.workspaceViewOption].  [init] runs up
    to its first [await], then the reactive statements are flushed. *)
Definition onMount (stored : option string) (w : World) : World :=
  let s := search w in
  let v := match stored with Some x => x | None => EmptyString end in
  flush
    (init (set_search {| loaded := true; query := query s;
                         viewOption := v;
                         searchDebounceTimer := searchDebounceTimer s;
                         lastQuery := query s;
                         lastViewOption := v;
                         isInitialLoad := false |} w)).

Definition onDestroy (w : World) : World :=
  let s := search w in
  let '(h, e) := Timers.cancel (searchDebounceTimer s, timers w) in
  set_timers e
    (set_search {| loaded := loaded s; query := query s;
                   viewOption := viewOption s;
                   searchDebounceTimer := h;
                   lastQuery := lastQuery s;
                   lastViewOption := lastViewOption s;
                   isInitialLoad := isInitialLoad s |} w).

(** The template shows the Load More button under
    [items !== null && total !== null], a non-empty list and
    [!allItemsLoaded]. *)
Definition load_more_offered (p : Paging) : bool :=
  negb (is_null (items p)) && negb (is_null (total p))
  && negb (length (nullish (items p) []) =? 0)%nat
  && negb (allItemsLoaded p).

Definition set_query (q : string) (s : Search) : Search :=
  {| loaded := loaded s; query := q; viewOption := viewOption s;
     searchDebounceTimer := searchDebounceTimer s;
     lastQuery := lastQuery s; lastViewOption := lastViewOption s;
     isInitialLoad := isInitialLoad s |}.

Definition set_viewOption (v : string) (s : Search) : Search :=
  {| loaded := loaded s; query := query s; viewOption := v;
     searchDebounceTimer := searchDebounceTimer s;
     lastQuery := lastQuery s; lastViewOption := lastViewOption s;
     isInitialLoad := isInitialLoad s |}.

(** What can happen to the component. *)
Inductive Event :=
| Mount (stored : option string)
| Input (q : string)
| SelectView (v : string)
| ClickLoadMore
| Settle (i : nat) (s : Settled)
| Elapse (dt : Z)
| Destroy.

Definition step (w : World) (ev : Event) : World :=
  match ev with
  | Mount stored => onMount stored w
  | Input q => flush (set_search (set_query q (search w)) w)
  | SelectView v => flush (set_search (set_viewOption v (search w)) w)
  | ClickLoadMore =>
      if load_more_offered (paging w) && negb (itemsLoading (paging w))
      then loadMoreItems w else w
  | Settle i s => getItemsPage_settle i s w
  | Elapse dt =>
      let '(fired, e) := Timers.elapse dt (timers w) in
      fold_left (fun w' _ => debounced w') fired (set_timers e w)
  | Destroy => onDestroy w
  end.

Definition run (evs : list Event) (w : World) : World := fold_left step evs w.

(** Is the first page of the current epoch still on its way? *)
Definition first_page_pending (w : World) : bool :=
  existsb (fun rq => (rq_epoch rq =? epoch w)%nat && (rq_page rq =? 1)) (inflight w).

(** [n] items numbered from [k]. *)
Fixpoint some_items (k n : nat) : list Item :=
  match n with
  | O => []
  | S m => {| item_id := String (ascii_of_nat k) EmptyString; item_name := "kb" |}
           :: some_items (S k) m
  end.

End Knowledge.

(* ------------------------------------------------------------------------- *)
(** ** Chats.svelte *)

Module Chats.
Import JS.

(** [type ChatData]; the optional fields may be missing. *)
Record ChatData := {
  id : string;
  title : option string;
  updated_at : option Z;
  models : option (list string);
  tags : option (list string)
}.

(** [type TagItem]: a tag name, or a tag object, which carries a name of at
    least one code unit. *)
Inductive TagItem :=
| TagString (s : string)
| TagObject (c : ascii) (rest : string).

(** [typeof t === 'string' ? t : t?.name || t] *)
Definition tag_value (t : TagItem) : string :=
  match t with
  | TagString s => s
  | TagObject c rest => String c rest
  end.

(** [normalizeTags], which [saveTag] repeats inline:
    [.map(...).filter(Boolean)] on an array, [[]] on anything else. *)
Definition normalizeTags (tagsResponse : option (list TagItem)) : list string :=
  match tagsResponse with
  | Some l => List.filter truthy (map tag_value l)
  | None => []
  end.

(** The component variables.  [allChatsData] and [filteredChats] hold
    references to arrays. *)
Record Vars := {
  loaded : bool;
  query : string;
  sortBy : string;
  sortOrder : string;
  allChatsData : positive;
  allTags : list TagItem;
  filteredChats : positive;
  editingTagChatId : option string;
  selectedTagsForChat : list string;
  searchDebounceTimer : option positive
}.

(** Chat objects and arrays of chat objects live in a store; an array holds
    references to its elements, so two arrays can share a chat. *)
Record Heap := {
  objects : gmap positive ChatData;
  arrays : gmap positive (list positive)
}.

(** The component, the store, the timers, and two records for the statements:
    how often [applyFiltersAndSort] has run and whether the component has been
    destroyed. *)
Record World := {
  vars : Vars;
  heap : Heap;
  timers : Timers.Env unit;
  recomputed : nat;
  destroyed : bool
}.

Definition no_chat : ChatData :=
  {| id := ""; title := None; updated_at := None; models := None; tags := None |}.

Definition deref (h : Heap) (r : positive) : ChatData :=
  default no_chat (objects h !! r).

Definition read (h : Heap) (a : positive) : list positive :=
  default [] (arrays h !! a).

(** A new array with the elements [l]. *)
Definition alloc_array (l : list positive) (h : Heap) : positive * Heap :=
  let a := fresh (dom (arrays h)) in
  (a, {| objects := objects h; arrays := <[a := l]> (arrays h) |}).

(** A new chat object. *)
Definition alloc_object (c : ChatData) (h : Heap) : positive * Heap :=
  let r := fresh (dom (objects h)) in
  (r, {| objects := <[r := c]> (objects h); arrays := arrays h |}).

Fixpoint alloc_objects (cs : list ChatData) (h : Heap) : list positive * Heap :=
  match cs with
  | [] => ([], h)
  | c :: rest =>
      let '(r, h1) := alloc_object c h in
      let '(rs, h2) := alloc_objects rest h1 in
      (r :: rs, h2)
  end.

(** The [let] declarations: [allChatsData = []] and [filteredChats = []] are
    two arrays. *)
Definition initial : World :=
  {| vars := {| loaded := false; query := ""; sortBy := "date";
                sortOrder := "desc"; allChatsData := 1; allTags := [];
                filteredChats := 2; editingTagChatId := None;
                selectedTagsForChat := []; searchDebounceTimer := None |};
     heap := {| objects := ∅; arrays := <[2%positive := []]> (<[1%positive := []]> ∅) |};
     timers := Timers.start;
     recomputed := 0;
     destroyed := false |}.

Definition set_vars (v : Vars) (w : World) : World :=
  {| vars := v; heap := heap w; timers := timers w;
     recomputed := recomputed w; destroyed := destroyed w |}.

Definition set_heap (h : Heap) (w : World) : World :=
  {| vars := vars w; heap := h; timers := timers w;
     recomputed := recomputed w; destroyed := destroyed w |}.

Definition set_filteredChats (a : positive) (v : Vars) : Vars :=
  {| loaded := loaded v; query := query v; sortBy := sortBy v;
     sortOrder := sortOrder v; allChatsData := allChatsData v;
     allTags := allTags v; filteredChats := a;
     editingTagChatId := editingTagChatId v;
     selectedTagsForChat := selectedTagsForChat v;
     searchDebounceTimer := searchDebounceTimer v |}.

Definition set_allChatsData (a : positive) (v : Vars) : Vars :=
  {| loaded := loaded v; query := query v; sortBy := sortBy v;
     sortOrder := sortOrder v; allChatsData := a;
     allTags := allTags v; filteredChats := filteredChats v;
     editingTagChatId := editingTagChatId v;
     selectedTagsForChat := selectedTagsForChat v;
     searchDebounceTimer := searchDebounceTimer v |}.

Definition set_query (q : string) (v : Vars) : Vars :=
  {| loaded := loaded v; query := q; sortBy := sortBy v;
     sortOrder := sortOrder v; allChatsData := allChatsData v;
     allTags := allTags v; filteredChats := filteredChats v;
     editingTagChatId := editingTagChatId v;
     selectedTagsForChat := selectedTagsForChat v;
     searchDebounceTimer := searchDebounceTimer v |}.

Definition set_sort (key order : string) (v : Vars) : Vars :=
  {| loaded := loaded v; query := query v; sortBy := key;
     sortOrder := order; allChatsData := allChatsData v;
     allTags := allTags v; filteredChats := filteredChats v;
     editingTagChatId := editingTagChatId v;
     selectedTagsForChat := selectedTagsForChat v;
     searchDebounceTimer := searchDebounceTimer v |}.

Definition set_loaded (b : bool) (v : Vars) : Vars :=
  {| loaded := b; query := query v; sortBy := sortBy v;
     sortOrder := sortOrder v; allChatsData := allChatsData v;
     allTags := allTags v; filteredChats := filteredChats v;
     editingTagChatId := editingTagChatId v;
     selectedTagsForChat := selectedTagsForChat v;
     searchDebounceTimer := searchDebounceTimer v |}.

Definition set_searchDebounceTimer (h : option positive) (v : Vars) : Vars :=
  {| loaded := loaded v; query := query v; sortBy := sortBy v;
     sortOrder := sortOrder v; allChatsData := allChatsData v;
     allTags := allTags v; filteredChats := filteredChats v;
     editingTagChatId := editingTagChatId v;
     selectedTagsForChat := selectedTagsForChat v;
     searchDebounceTimer := h |}.

(** The filter callback of [applyFiltersAndSort]. *)
Definition matches (lowerQuery : string) (chat : ChatData) : bool :=
  let title := toLowerCase (default EmptyString (title chat)) in
  let modelNames := toLowerCase (join " " (default [] (models chat))) in
  let tags := toLowerCase (join " " (default [] (tags chat))) in
  includes title lowerQuery || includes modelNames lowerQuery
  || includes tags lowerQuery.

(** [tagsToRemove] and [tagsToAdd] of [saveTag]. *)
Definition newTags (selected : list string) : list string :=
  from_set
    (List.filter (fun t => truthy t && (0 <? String.length t)%nat)
       (map trim selected)).

Definition tagsToRemove (currentTags selected : list string) : list string :=
  List.filter (fun tag => negb (array_includes (newTags selected) tag)) currentTags.

Definition tagsToAdd (currentTags selected : list string) : list string :=
  List.filter (fun tag => negb (array_includes currentTags tag)) (newTags selected).

(** A call to the chats API, as it leaves the component. *)
Inductive Call :=
| DeleteTag (chatId tag : string)
| AddTag (chatId tag : string)
| GetTags (chatId : string)
| GetAllTags.

Inductive Toast :=
| ToastSuccess (msg : string)
| ToastError (msg : string).

Inductive Outcome (A : Type) :=
| Fulfils (a : A)
| Rejects.
Arguments Fulfils {A} a.
Arguments Rejects {A}.

(** What the server answers during one [saveTag]: whether the [i]-th request
    of the [Promise.all] batch succeeds, and the replies to the two reads. *)
Record Api := {
  batch_ok : nat -> bool;
  tags_reply : Outcome (option (list TagItem));
  all_tags_reply : Outcome (option (list TagItem))
}.

Section Collation.
(** [String.prototype.localeCompare], which depends on the locale. *)
Variable localeCompare : string -> string -> Z.

(** The comparator of [applyFiltersAndSort]. *)
Definition comparison (key : string) (a b : ChatData) : Z :=
  if (key =? "date")%string then
    default 0 (updated_at a) - default 0 (updated_at b)
  else if (key =? "model")%string then
    localeCompare (hd EmptyString (default [] (models a)))
                  (hd EmptyString (default [] (models b)))
  else if (key =? "tag")%string then
    localeCompare (hd EmptyString (default [] (tags a)))
                  (hd EmptyString (default [] (tags b)))
  else 0.

Definition comparator (key order : string) (a b : ChatData) : Z :=
  if (order =? "asc")%string then comparison key a b else - comparison key a b.

(** [a.sort(cmp)] sorts the array [a] in place. *)
Definition sort_in_place (cmp : ChatData -> ChatData -> Z) (a : positive) (h : Heap) : Heap :=
  {| objects := objects h;
     arrays := <[a := sort (fun x y => cmp (deref h x) (deref h y)) (read h a)]> (arrays h) |}.

Definition applyFiltersAndSort (w : World) : World :=
  let v := vars w in
  let h := heap w in
  let '(filtered, h1) :=
    if truthy (trim (query v)) then
      alloc_array
        (List.filter (fun r => matches (toLowerCase (query v)) (deref h r))
           (read h (allChatsData v))) h
    else (allChatsData v, h) in
  let '(copy, h2) := alloc_array (read h1 filtered) h1 in
  let h3 := sort_in_place (comparator (sortBy v) (sortOrder v)) copy h2 in
  {| vars := set_filteredChats copy v; heap := h3; timers := timers w;
     recomputed := S (recomputed w); destroyed := destroyed w |}.

(** The tail of [init]: [allChatsData = enriched; applyFiltersAndSort();] *)
Definition chats_loaded (enriched : list ChatData) (w : World) : World :=
  let '(rs, h1) := alloc_objects enriched (heap w) in
  let '(a, h2) := alloc_array rs h1 in
  applyFiltersAndSort (set_heap h2 (set_vars (set_allChatsData a (vars w)) w)).

(** [chat.tags = updatedTags] *)
Definition assign_tags (r : positive) (updated : list string) (h : Heap) : Heap :=
  let c := deref h r in
  {| objects := <[r := {| id := id c; title := title c;
                           updated_at := updated_at c; models := models c;
                           tags := Some updated |}]> (objects h);
     arrays := arrays h |}.

(** [saveTag], run to its end against the answers [api]; the calls it makes
    and the toasts it shows are returned with the new state. *)
Definition saveTag (api : Api) (chatId : string) (w : World)
  : World * list Call * list Toast :=
  let v := vars w in
  match List.find (fun r => (id (deref (heap w) r) =? chatId)%string)
          (read (heap w) (allChatsData v)) with
  | None => (w, [], [])
  | Some r =>
      let currentTags := default [] (tags (deref (heap w) r)) in
      let removes := tagsToRemove currentTags (selectedTagsForChat v) in
      let adds := tagsToAdd currentTags (selectedTagsForChat v) in
      let batch := map (DeleteTag chatId) removes ++ map (AddTag chatId) adds in
      let failed := ToastError "Failed to update tag" in
      (* the removes carry [.catch(() => {})]; one rejected add rejects
         [Promise.all] *)
      if forallb (fun i => batch_ok api (length removes + i)%nat) (seq 0 (length adds))
      then
        match tags_reply api with
        | Rejects => (w, batch ++ [GetTags chatId], [failed])
        | Fulfils updatedTagsResponse =>
            let w1 := set_heap (assign_tags r (normalizeTags updatedTagsResponse) (heap w)) w in
            match all_tags_reply api with
            | Rejects => (w1, batch ++ [GetTags chatId; GetAllTags], [failed])
            | Fulfils all =>
                let w2 := applyFiltersAndSort
                            (set_vars {| loaded := loaded v; query := query v;
                                         sortBy := sortBy v; sortOrder := sortOrder v;
                                         allChatsData := allChatsData v;
                                         allTags := default [] all;
                                         filteredChats := filteredChats v;
                                         editingTagChatId := editingTagChatId v;
                                         selectedTagsForChat := selectedTagsForChat v;
                                         searchDebounceTimer := searchDebounceTimer v |} w1) in
                let v2 := vars w2 in
                (set_vars {| loaded := loaded v2; query := query v2;
                             sortBy := sortBy v2; sortOrder := sortOrder v2;
                             allChatsData := allChatsData v2;
                             allTags := allTags v2;
                             filteredChats := filteredChats v2;
                             editingTagChatId := None;
                             selectedTagsForChat := [];
                             searchDebounceTimer := searchDebounceTimer v2 |} w2,
                 batch ++ [GetTags chatId; GetAllTags],
                 [ToastSuccess "Tag updated successfully"])
            end
        end
      else (w, batch, [failed])
  end.

(** [startEditTag] *)
Definition startEditTag (r : positive) (w : World) : World :=
  let v := vars w in
  let c := deref (heap w) r in
  set_vars {| loaded := loaded v; query := query v;
              sortBy := sortBy v; sortOrder := sortOrder v;
              allChatsData := allChatsData v; allTags := allTags v;
              filteredChats := filteredChats v;
              editingTagChatId := Some (id c);
              selectedTagsForChat := default [] (tags c);
              searchDebounceTimer := searchDebounceTimer v |} w.

(** The tag buttons of the editor: a click removes the tag from
    [selectedTagsForChat] when it is there and appends it otherwise. *)
Definition toggleTag (tagValue : string) (w : World) : World :=
  let v := vars w in
  set_vars {| loaded := loaded v; query := query v;
              sortBy := sortBy v; sortOrder := sortOrder v;
              allChatsData := allChatsData v; allTags := allTags v;
              filteredChats := filteredChats v;
              editingTagChatId := editingTagChatId v;
              selectedTagsForChat :=
                if array_includes (selectedTagsForChat v) tagValue
                then List.filter (fun t => negb (t =? tagValue)%string)
                       (selectedTagsForChat v)
                else selectedTagsForChat v ++ [tagValue];
              searchDebounceTimer := searchDebounceTimer v |} w.

(** [$: if (loaded && query !== undefined) debounceSearch(...)] *)
Definition react_query (w : World) : World :=
  if loaded (vars w) then
    let '(h, e) := Timers.debounceSearch tt 500 (searchDebounceTimer (vars w), timers w) in
    {| vars := set_searchDebounceTimer h (vars w); heap := heap w; timers := e;
       recomputed := recomputed w; destroyed := destroyed w |}
  else w.

(** [$: if (loaded && (sortBy !== undefined || sortOrder !== undefined))
    applyFiltersAndSort()] *)
Definition react_sort (w : World) : World :=
  if loaded (vars w) then applyFiltersAndSort w else w.

(** What can happen to the component.  A reactive statement runs when one of
    the variables it reads has been given a new value.  The script registers
    nothing with [onDestroy], so destroying the component runs none of its
    code. *)
Inductive Event :=
| Mount
| Loaded (enriched : list ChatData)
| Input (q : string)
| Sort (key order : string)
| Elapse (dt : Z)
| Destroy.

Definition step (w : World) (ev : Event) : World :=
  match ev with
  | Mount => react_sort (react_query (set_vars (set_loaded true (vars w)) w))
  | Loaded enriched => chats_loaded enriched w
  | Input q =>
      if (q =? query (vars w))%string then w
      else react_query (set_vars (set_query q (vars w)) w)
  | Sort key order =>
      if (key =? sortBy (vars w))%string && (order =? sortOrder (vars w))%string then w
      else react_sort (set_vars (set_sort key order (vars w)) w)
  | Elapse dt =>
      let '(fired, e) := Timers.elapse dt (timers w) in
      fold_left (fun w' _ => applyFiltersAndSort w') fired
        {| vars := vars w; heap := heap w; timers := e;
           recomputed := recomputed w; destroyed := destroyed w |}
  | Destroy =>
      {| vars := vars w; heap := heap w; timers := timers w;
         recomputed := recomputed w; destroyed := true |}
  end.

Definition run (evs : list Event) (w : World) : World := fold_left step evs w.

(** The chats [filteredChats] shows. *)
Definition shown (w : World) : list ChatData :=
  map (deref (heap w)) (read (heap w) (filteredChats (vars w))).

End Collation.

End Chats.

(* ------------------------------------------------------------------------- *)
(** * Properties *)

(** ** Strings and arrays *)

Module JSFacts.
Import JS.

Lemma prefix_app (sub s : string) :
  String.prefix sub s = true <-> exists post, s = (sub ++ post)%string.
Proof.
  revert s. induction sub as [|a sub IH]; intros s.
  - split; [intros _; now exists s | intros _; destruct s; reflexivity].
  - destruct s as [|b s]; simpl.
    + split; [discriminate | intros [post H]; discriminate].
    + destruct (ascii_dec a b) as [->|Hab].
      * rewrite IH. split; intros [post H]; exists post.
        -- now rewrite H.
        -- now injection H.
      * split; [discriminate|]. intros [post H]. injection H as H1 H2. congruence.
Qed.

Lemma includes_cons (c : ascii) (s sub : string) :
  includes (String c s) sub = String.prefix sub (String c s) || includes s sub.
Proof. reflexivity. Qed.

Lemma includes_Substring (s sub : string) :
  includes s sub = true <-> Substring sub s.
Proof.
  split.
  - induction s as [|c s IH].
    + change (includes EmptyString sub) with (String.prefix sub EmptyString || false).
      rewrite orb_false_r. intros H. apply prefix_app in H as [post H].
      now exists EmptyString, post.
    + rewrite includes_cons. intros H. apply orb_true_iff in H as [H|H].
      * apply prefix_app in H as [post H]. now exists EmptyString, post.
      * destruct (IH H) as (pre & post & E). exists (String c pre), post.
        simpl. now rewrite E.
  - intros (pre & post & E). revert s E.
    induction pre as [|c pre IH]; intros s E.
    + simpl in E. assert (P : String.prefix sub s = true)
        by (apply prefix_app; now exists post).
      destruct s;
        [change (includes EmptyString sub) with (String.prefix sub EmptyString || false)
        | rewrite includes_cons]; now rewrite P.
    + subst s. change (String c pre ++ sub ++ post)%string
        with (String c (pre ++ sub ++ post)%string).
      rewrite includes_cons, (IH _ eq_refl). apply orb_true_r.
Qed.

(** [trim] takes white space off both ends and nothing else. *)
Fixpoint blank (s : string) : bool :=
  match s with
  | EmptyString => true
  | String c s' => is_white_space c && blank s'
  end.

Definition starts_white (s : string) : bool :=
  match s with
  | EmptyString => false
  | String c _ => is_white_space c
  end.

Fixpoint ends_white (s : string) : bool :=
  match s with
  | EmptyString => false
  | String c EmptyString => is_white_space c
  | String _ s' => ends_white s'
  end.

Lemma trimStart_split (s : string) :
  exists pre, s = (pre ++ trimStart s)%string /\ blank pre = true.
Proof.
  induction s as [|c s (pre & E & B)]; simpl.
  - now exists EmptyString.
  - destruct (is_white_space c) eqn:W.
    + exists (String c pre). simpl. rewrite W, B. split; [|reflexivity].
      change (String c s = String c (pre ++ trimStart s)%string). now f_equal.
    + now exists EmptyString.
Qed.

Lemma trimStart_starts (s : string) : starts_white (trimStart s) = false.
Proof.
  induction s as [|c s IH]; simpl; [reflexivity|].
  destruct (is_white_space c) eqn:W; [assumption | simpl; assumption].
Qed.

Lemma trimEnd_cons (c : ascii) (s : string) :
  trimEnd (String c s)
  = match trimEnd s with
    | EmptyString => if is_white_space c then EmptyString else String c EmptyString
    | String d r => String c (String d r)
    end.
Proof. reflexivity. Qed.

Lemma trimEnd_split (s : string) :
  exists post, s = (trimEnd s ++ post)%string /\ blank post = true.
Proof.
  induction s as [|c s (post & E & B)].
  - now exists EmptyString.
  - rewrite trimEnd_cons. destruct (trimEnd s) as [|d r].
    + change (s = post) in E. subst post. destruct (is_white_space c) eqn:W.
      * exists (String c s). simpl. now rewrite W, B.
      * exists s. now split.
    + exists post. split; [|assumption].
      change (String c s = String c (String d r ++ post)%string). now f_equal.
Qed.

Lemma trimEnd_ends (s : string) : ends_white (trimEnd s) = false.
Proof.
  induction s as [|c s IH]; [reflexivity|].
  rewrite trimEnd_cons. destruct (trimEnd s) as [|d r].
  - destruct (is_white_space c) eqn:W; simpl; [reflexivity | assumption].
  - exact IH.
Qed.

Lemma trimEnd_starts (s : string) :
  starts_white s = false -> starts_white (trimEnd s) = false.
Proof.
  destruct s as [|c s]; [reflexivity|]. rewrite trimEnd_cons. simpl. intros W.
  destruct (trimEnd s); [now rewrite W | exact W].
Qed.

Lemma trim_strips_both_ends (s : string) :
  (exists pre post, s = (pre ++ trim s ++ post)%string
                    /\ blank pre = true /\ blank post = true)
  /\ starts_white (trim s) = false
  /\ ends_white (trim s) = false.
Proof.
  unfold trim. split; [|split].
  - destruct (trimStart_split s) as (pre & E1 & B1).
    destruct (trimEnd_split (trimStart s)) as (post & E2 & B2).
    exists pre, post. split; [|split; assumption].
    now rewrite <- E2.
  - apply trimEnd_starts, trimStart_starts.
  - apply trimEnd_ends.
Qed.

Lemma array_includes_In (l : list string) (x : string) :
  array_includes l x = true <-> In x l.
Proof.
  unfold array_includes. rewrite existsb_exists. split.
  - intros (y & Hy & E). apply String.eqb_eq in E. now subst.
  - intros H. exists x. split; [assumption | apply String.eqb_refl].
Qed.

Lemma array_includes_not_In (l : list string) (x : string) :
  negb (array_includes l x) = true <-> ~ In x l.
Proof.
  rewrite negb_true_iff, <- array_includes_In.
  destruct (array_includes l x); split; congruence.
Qed.

Lemma fold_set_add_In (l acc : list string) (x : string) :
  In x (fold_left set_add l acc) <-> In x acc \/ In x l.
Proof.
  revert acc. induction l as [|y l IH]; intros acc; simpl.
  - tauto.
  - rewrite IH. unfold set_add.
    destruct (array_includes acc y) eqn:E.
    + apply array_includes_In in E. split; [tauto|].
      intros [H|[->|H]]; tauto.
    + rewrite in_app_iff. simpl. tauto.
Qed.

Lemma fold_set_add_NoDup (l acc : list string) :
  List.NoDup acc -> List.NoDup (fold_left set_add l acc).
Proof.
  revert acc. induction l as [|y l IH]; intros acc Hacc; simpl; [assumption|].
  apply IH. unfold set_add. destruct (array_includes acc y) eqn:E; [assumption|].
  assert (Hy : ~ In y acc).
  { apply array_includes_not_In. now rewrite E. }
  clear E. induction acc as [|a acc IHa]; simpl.
  - constructor; [intros []|constructor].
  - inversion Hacc as [|? ? Ha Hacc']; subst. constructor.
    + rewrite in_app_iff. simpl. intros [H|[H|[]]]; [tauto|].
      subst. apply Hy. now left.
    + apply IHa; [assumption|]. intros H. apply Hy. now right.
Qed.

Lemma from_set_In (l : list string) (x : string) : In x (from_set l) <-> In x l.
Proof. unfold from_set. rewrite fold_set_add_In. simpl. tauto. Qed.

Lemma from_set_NoDup (l : list string) : List.NoDup (from_set l).
Proof. apply fold_set_add_NoDup. constructor. Qed.

(** The last element of a non-empty list does not depend on the default. *)
Lemma last_cons {A : Type} (x d : A) (l : list A) :
  List.last (x :: l) d = List.last l x.
Proof.
  revert x d. induction l as [|y l IH]; intros x d; [reflexivity|].
  change (List.last (x :: y :: l) d) with (List.last (y :: l) d).
  now rewrite (IH y d), (IH y x).
Qed.

Section SortFacts.
Context {A : Type} (cmp : A -> A -> Z).

Lemma insert_sorted_perm (x : A) (l : list A) :
  Permutation (insert_sorted cmp x l) (x :: l).
Proof.
  induction l as [|y l IH]; simpl; [reflexivity|].
  destruct (cmp x y <=? 0); [reflexivity|].
  rewrite IH. apply perm_swap.
Qed.

Lemma sort_perm (l : list A) : Permutation (sort cmp l) l.
Proof.
  induction l as [|x l IH]; simpl; [reflexivity|].
  rewrite insert_sorted_perm. now apply perm_skip.
Qed.

Lemma sort_In (l : list A) (x : A) : In x (sort cmp l) <-> In x l.
Proof.
  split; apply Permutation_in; [apply sort_perm | symmetry; apply sort_perm].
Qed.
End SortFacts.

End JSFacts.

(** ** The debouncer *)

Module TimersFacts.
Import Timers.

Section Debounce.
Context {A : Type}.
Implicit Types (st : option positive * Env A) (e : Env A) (cb : A).

(** After a [debounceSearch] call exactly one timer is pending: the one the
    variable [searchDebounceTimer] names, due one delay from now. *)
Definition armed (delay : Z) (cb : A) (st : option positive * Env A) : Prop :=
  exists h, fst st = Some h
    /\ pending (snd st) = [ {| handle := h;
                               deadline := now (snd st) + Z.max 0 delay;
                               callback := cb |} ].

Lemma debounce_idle delay cb st :
  pending (snd st) = [] -> armed delay cb (debounceSearch cb delay st).
Proof.
  intros Hidle. destruct st as [o e]. simpl in Hidle.
  unfold debounceSearch, armed. simpl.
  destruct o as [h|]; simpl; rewrite Hidle; simpl; eexists; split; reflexivity.
Qed.

(** A call while the named timer is pending replaces it. *)
Lemma debounce_rearm delay cb e h d cb0 :
  pending e = [ {| handle := h; deadline := d; callback := cb0 |} ] ->
  armed delay cb (debounceSearch cb delay (Some h, e)).
Proof.
  intros Hp. unfold debounceSearch, armed. simpl. rewrite Hp. simpl.
  rewrite Pos.eqb_refl. simpl. eexists; split; reflexivity.
Qed.

(** Within the window nothing fires and the timer stays. *)
Lemma elapse_early delay cb o e gap :
  armed delay cb (o, e) -> 0 <= gap < delay ->
  exists e', elapse gap e = ([], e')
    /\ pending e' = pending e /\ (exists h, o = Some h).
Proof.
  intros (h & Hh & Hp) Hgap. simpl in Hh, Hp.
  unfold elapse. rewrite Hp. unfold due. simpl.
  assert (E : (now e + Z.max 0 delay <=? now e + gap) = false)
    by (apply Z.leb_gt; lia).
  rewrite E. simpl. eexists. split; [reflexivity|]. split; [reflexivity|].
  now exists h.
Qed.

(** Once the window has passed the timer fires, and nothing stays pending. *)
Lemma elapse_late delay cb st wait :
  armed delay cb st -> Z.max 0 delay <= wait ->
  exists e', elapse wait (snd st) = ([cb], e') /\ pending e' = [].
Proof.
  intros (h & Hh & Hp) Hwait.
  unfold elapse. rewrite Hp. unfold due. simpl.
  assert (E : (now (snd st) + Z.max 0 delay <=? now (snd st) + wait) = true)
    by (apply Z.leb_le; lia).
  rewrite E. simpl. eexists. split; reflexivity.
Qed.

Lemma burst_armed delay (rest : list (Z * A)) cb0 st :
  armed delay cb0 st ->
  Forall (fun c => 0 <= fst c < delay) rest ->
  exists st', burst delay rest st = ([], st')
    /\ armed delay (List.last (map snd rest) cb0) st'.
Proof.
  revert cb0 st. induction rest as [|[gap cb] rest IH]; intros cb0 st Harmed Hgaps.
  - exists st. split; [reflexivity | assumption].
  - inversion Hgaps as [|? ? Hgap Hrest]; subst. simpl in Hgap.
    destruct st as [o e].
    destruct (elapse_early delay cb0 o e gap Harmed Hgap) as (e1 & E1 & Hp & h & ->).
    assert (Harmed1 : armed delay cb (debounceSearch cb delay (Some h, e1))).
    { destruct Harmed as (h' & Hh' & Hp'). simpl in Hh', Hp'.
      injection Hh' as <-. eapply debounce_rearm. rewrite Hp. exact Hp'. }
    destruct (IH cb _ Harmed1 Hrest) as (st' & E & Hlast).
    exists st'. split.
    + cbn [burst fst snd]. rewrite E1. cbn [fst]. rewrite E. reflexivity.
    + change (map snd ((gap, cb) :: rest)) with (cb :: map snd rest).
      rewrite JSFacts.last_cons. assumption.
Qed.

(** C4. For every burst of N >= 1 [debounceSearch] calls in which each call
    follows the previous one strictly within the delay, no callback fires
    during the burst, and once the delay has passed after the last call
    exactly one callback has fired, the one of the last call; no timer stays
    pending, so the callbacks of the earlier calls never fire. *)
Theorem debounce_burst_fires_last_once
  (delay gap0 wait : Z) (cb0 : A) (rest : list (Z * A)) st :
  pending (snd st) = [] ->
  Forall (fun c => 0 <= fst c < delay) rest ->
  Z.max 0 delay <= wait ->
  exists st' e',
    burst delay ((gap0, cb0) :: rest) st = ([], st')
    /\ elapse wait (snd st') = ([List.last (map snd rest) cb0], e')
    /\ pending e' = [].
Proof.
  intros Hidle Hgaps Hwait. destruct st as [o e]. simpl in Hidle.
  assert (E0 : exists e1, elapse gap0 e = ([], e1) /\ pending e1 = []).
  { unfold elapse. rewrite Hidle. simpl. eexists. split; reflexivity. }
  destruct E0 as (e1 & E1 & Hp1).
  assert (Harmed : armed delay cb0 (debounceSearch cb0 delay (o, e1)))
    by (apply debounce_idle; assumption).
  destruct (burst_armed delay rest cb0 _ Harmed Hgaps) as (st' & E & Hlast).
  destruct (elapse_late delay _ st' wait Hlast Hwait) as (e' & E' & Hp').
  exists st', e'. split; [|split; assumption].
  cbn [burst fst snd]. rewrite E1. cbn [fst]. rewrite E. reflexivity.
Qed.

End Debounce.

(** The queries "a", "ab", "abc" typed 100 ms apart with a delay of 500 ms:
    one callback, for "abc". *)
Lemma debounce_burst_fires_last_once_witness :
  exists st' e',
    burst 500 [(0, "a"%string); (100, "ab"%string); (100, "abc"%string)]
      (None, Timers.start) = ([], st')
    /\ elapse 500 (snd st') = (["abc"%string], e')
    /\ pending e' = [].
Proof.
  apply (debounce_burst_fires_last_once 500 0 500 "a"%string
           [(100, "ab"%string); (100, "abc"%string)] (None, Timers.start)).
  - reflexivity.
  - repeat constructor; simpl; lia.
  - lia.
Defined.

End TimersFacts.

(** ** The paged search of Knowledge.svelte *)

Module KnowledgeFacts.
Import JS Knowledge.

Definition old_item : Item := {| item_id := "k1"; item_name := "from the old query" |}.

(** The first page of 20 out of 45 has arrived. *)
Definition first_page_shown : World :=
  run [Mount None;
       Settle 0 (Fulfilled (Some {| res_items := some_items 0 20; res_total := 45 |}))]
    initial.

(** The query has changed and its reload has started while the request of
    the mount is still on its way. *)
Definition reloading : World :=
  run [Mount None; Input "x"; Elapse 500] initial.

(** *** What a settling request does *)

Lemma resume_fulfilled (r : SearchResult) (p : Paging) :
  getItemsPage_resume (ResObject r) p =
    (let its := nullish (items p) [] ++ res_items r in
     {| page := page p;
        items := val its;
        total := val (res_total r);
        allItemsLoaded :=
          (length (res_items r) =? 0)%nat || (res_total r <=? Z.of_nat (length its));
        itemsLoading := false;
        hasLoadedInitialPage := (page p =? 1) || hasLoadedInitialPage p |},
     Normal).
Proof.
  unfold getItemsPage_resume, all_loaded_test. simpl.
  destruct (items p) as [| |l]; simpl;
    destruct (length (res_items r) =? 0)%nat; simpl;
    destruct (page p =? 1); reflexivity.
Qed.

(** A rejected request while a list is shown: [total] has been overwritten
    when the spread throws, and the rest of the function is skipped. *)
Lemma resume_rejected_list (l : list Item) (p : Paging) :
  items p = val l ->
  getItemsPage_resume (caught Rejected) p = (set_total undefined p, TypeError).
Proof. intros H. unfold getItemsPage_resume. simpl. now rewrite H. Qed.

(** A rejected request while no list is shown. *)
Lemma resume_rejected_no_list (p : Paging) :
  (if items p is val _ then False else True) ->
  getItemsPage_resume (caught Rejected) p =
    ({| page := page p; items := undefined; total := undefined;
        allItemsLoaded := true; itemsLoading := false;
        hasLoadedInitialPage := (page p =? 1) || hasLoadedInitialPage p |},
     Normal).
Proof.
  intros H. unfold getItemsPage_resume, all_loaded_test. simpl.
  destruct (items p); try contradiction; simpl; destruct (page p =? 1); reflexivity.
Qed.

Lemma settle_fulfilled (w : World) (i : nat) (rq : Request) (r : SearchResult) :
  nth_error (inflight w) i = Some rq ->
  step w (Settle i (Fulfilled (Some r))) =
    {| paging := fst (getItemsPage_resume (ResObject r) (paging w));
       search := search w; timers := timers w;
       inflight := remove_nth i (inflight w);
       issued := issued w; epoch := epoch w; uncaught := uncaught w |}.
Proof.
  intros H. simpl. unfold getItemsPage_settle. rewrite H. simpl.
  rewrite resume_fulfilled. reflexivity.
Qed.

(** *** C1 *)

(** The request sent at mount time (epoch 1) is answered after the change of
    query has restarted the list (epoch 2): its item is shown and its total
    is taken over. *)
Lemma stale_response_is_applied :
  nth_error (inflight reloading) 0
    = Some {| rq_query := ""; rq_viewOption := ""; rq_page := 1; rq_epoch := 1 |}
  /\ epoch reloading = 2%nat
  /\ query (search reloading) = "x"%string
  /\ items (paging reloading) = null
  /\ let w := step reloading
                (Settle 0 (Fulfilled (Some {| res_items := [old_item]; res_total := 7 |}))) in
     items (paging w) = val [old_item] /\ total (paging w) = val 7.
Proof. vm_compute. repeat split; reflexivity. Qed.

(** C1, amended.  The controller attaches no epoch to a request: when a
    pending request is fulfilled, the result is applied to the paging state
    of that moment, whichever epoch the request was sent under.  Its items
    are appended to the items shown (or become the list when none is shown),
    its total is adopted and the loading flag is cleared. *)
Theorem fulfilled_response_applied_in_any_epoch
  (w : World) (i : nat) (rq : Request) (r : SearchResult) :
  nth_error (inflight w) i = Some rq ->
  let w' := step w (Settle i (Fulfilled (Some r))) in
  items (paging w') = val (nullish (items (paging w)) [] ++ res_items r)
  /\ total (paging w') = val (res_total r)
  /\ itemsLoading (paging w') = false
  /\ inflight w' = remove_nth i (inflight w)
  /\ epoch w' = epoch w.
Proof.
  intros H w'. subst w'. rewrite (settle_fulfilled w i rq r H).
  rewrite resume_fulfilled. simpl. repeat split.
Qed.

Lemma fulfilled_response_applied_in_any_epoch_witness :
  let rq := {| rq_query := ""; rq_viewOption := ""; rq_page := 1; rq_epoch := 1 |} in
  let r := {| res_items := [old_item]; res_total := 7 |} in
  rq_epoch rq <> epoch reloading
  /\ let w' := step reloading (Settle 0 (Fulfilled (Some r))) in
     items (paging w') = val (nullish (items (paging reloading)) [] ++ res_items r)
     /\ total (paging w') = val (res_total r)
     /\ itemsLoading (paging w') = false
     /\ inflight w' = remove_nth 0 (inflight reloading)
     /\ epoch w' = epoch reloading.
Proof.
  split.
  - vm_compute. discriminate.
  - apply (fulfilled_response_applied_in_any_epoch reloading 0
             {| rq_query := ""; rq_viewOption := ""; rq_page := 1; rq_epoch := 1 |}).
    reflexivity.
Defined.

(** *** C2 *)

(** C2, at the failing input.  The first page of 20 out of 45 is shown, Load
    More is clicked and the request for page 2 is rejected.  The rejection
    becomes an empty array, which is truthy, so the update code runs and
    throws at the spread: the loading flag stays set, the total is lost, the
    page stays at 2, and Load More does nothing from then on. *)
Theorem rejected_load_more_leaves_loading_set :
  let w1 := step first_page_shown ClickLoadMore in
  let w2 := step w1 (Settle 0 Rejected) in
  inflight w1 = [ {| rq_query := ""; rq_viewOption := ""; rq_page := 2; rq_epoch := 1 |} ]
  /\ items (paging w2) = items (paging first_page_shown)
  /\ itemsLoading (paging w2) = true
  /\ total (paging w2) = undefined
  /\ page (paging w2) = 2
  /\ uncaught w2 = 1%nat
  /\ inflight w2 = []
  /\ loadMoreItems w2 = w2
  /\ step w2 ClickLoadMore = w2.
Proof. vm_compute. repeat split; reflexivity. Qed.

(** *** C3 *)

(** C3.  When a page result is applied, [allItemsLoaded] becomes
    (no item on the page) or (the total is known and at least as many items
    are shown), and the Load More button is rendered exactly when the flag is
    false.  With a total of 45 and pages of 20: the flag is false after pages
    1 and 2, true after the 5 items of page 3, and a fourth [loadMoreItems]
    sends nothing. *)
Theorem exhaustion_rule :
  (forall (p : Paging) (r : SearchResult),
      let p' := fst (getItemsPage_resume (ResObject r) p) in
      snd (getItemsPage_resume (ResObject r) p) = Normal
      /\ items p' = val (nullish (items p) [] ++ res_items r)
      /\ total p' = val (res_total r)
      /\ allItemsLoaded p'
         = ((length (res_items r) =? 0)%nat
            || (negb (is_null (total p'))
                && (res_total r <=? Z.of_nat (length (nullish (items p') [])))))
      /\ load_more_offered p' = negb (allItemsLoaded p'))
  /\ let page_of k n := Settle 0 (Fulfilled (Some {| res_items := some_items k n;
                                                      res_total := 45 |})) in
     let w1 := run [Mount None; page_of 0%nat 20%nat] initial in
     let w2 := run [ClickLoadMore; page_of 20%nat 20%nat] w1 in
     let w3 := run [ClickLoadMore; page_of 40%nat 5%nat] w2 in
     allItemsLoaded (paging w1) = false
     /\ (allItemsLoaded (paging w2) = false
         /\ length (nullish (items (paging w2)) []) = 40%nat)
     /\ (allItemsLoaded (paging w3) = true
         /\ length (nullish (items (paging w3)) []) = 45%nat
         /\ load_more_offered (paging w3) = false)
     /\ length (issued w3) = 3%nat
     /\ loadMoreItems w3 = w3.
Proof.
  split.
  - intros p r p'. subst p'. rewrite resume_fulfilled. simpl.
    repeat split. unfold load_more_offered. simpl.
    destruct (length (res_items r) =? 0)%nat eqn:E; simpl.
    + apply andb_false_r.
    + rewrite length_app.
      destruct (length (res_items r)) as [|n]; [discriminate|].
      replace (length (nullish (items p) []) + S n =? 0)%nat with false
        by (symmetry; apply Nat.eqb_neq; lia).
      reflexivity.
  - vm_compute. repeat split; reflexivity.
Qed.

(** *** C7 *)

(** The answer to the request of the old query clears the loading flag and
    sets [hasLoadedInitialPage] while the first page of the new query is
    still on its way; [loadMoreItems] then asks for page 2 of the new query. *)
Lemma load_more_overtakes_first_page :
  let w := step reloading
             (Settle 0 (Fulfilled (Some {| res_items := [old_item]; res_total := 45 |}))) in
  inflight w = [ {| rq_query := "x"; rq_viewOption := ""; rq_page := 1; rq_epoch := 2 |} ]
  /\ epoch w = 2%nat
  /\ first_page_pending w = true
  /\ load_more_offered (paging w) = true
  /\ loadMoreItems w <> w
  /\ issued (loadMoreItems w)
     = issued w ++ [ {| rq_query := "x"; rq_viewOption := ""; rq_page := 2; rq_epoch := 2 |} ]
  /\ step w ClickLoadMore = loadMoreItems w.
Proof.
  vm_compute. repeat split; try reflexivity. discriminate.
Qed.

(** C7, amended.  [loadMoreItems] does nothing when [allItemsLoaded] is set,
    or [itemsLoading] is set, or [hasLoadedInitialPage] is not set, or
    [items] is null; otherwise it increments [page], sets [itemsLoading] and
    sends exactly one request, for the new page.  A second call right after
    the first changes nothing, so two calls in a row send one request.  The
    flags are those of the paging state, which any settled request updates. *)
Theorem loadMoreItems_guard (w : World) :
  let p := paging w in
  let w' := loadMoreItems w in
  (if allItemsLoaded p || itemsLoading p
      || negb (hasLoadedInitialPage p) || is_null (items p)
   then w' = w
   else
     let rq := {| rq_query := query (search w);
                  rq_viewOption := viewOption (search w);
                  rq_page := page p + 1;
                  rq_epoch := epoch w |} in
     issued w' = issued w ++ [rq]
     /\ inflight w' = inflight w ++ [rq]
     /\ paging w' = set_itemsLoading true (set_page (page p + 1) p)
     /\ search w' = search w /\ timers w' = timers w)
  /\ loadMoreItems w' = w'.
Proof.
  intros p w'. subst p w'. unfold loadMoreItems.
  destruct (allItemsLoaded (paging w)) eqn:E1; simpl; [now rewrite E1|].
  destruct (itemsLoading (paging w)) eqn:E2; simpl; [now rewrite E1, E2|].
  destruct (hasLoadedInitialPage (paging w)) eqn:E3; simpl;
    [|now rewrite E1, E2, E3].
  destruct (is_null (items (paging w))) eqn:E4; simpl;
    [now rewrite E1, E2, E3, E4|].
  rewrite E1. simpl. repeat split.
Qed.

(** *** The debounced search *)

(** "a", "ab", "abc" typed 100 ms apart: nothing is sent until 500 ms after
    the last keystroke, then one request goes out, for "abc". *)
Lemma typing_burst_sends_one_request :
  let w := run [Input "a"; Elapse 100; Input "ab"; Elapse 100; Input "abc"; Elapse 499]
             first_page_shown in
  issued w = issued first_page_shown
  /\ issued (step w (Elapse 1))
     = issued first_page_shown
       ++ [ {| rq_query := "abc"; rq_viewOption := ""; rq_page := 1; rq_epoch := 2 |} ]
  /\ Timers.pending (timers (step w (Elapse 1))) = [].
Proof. vm_compute. repeat split; reflexivity. Qed.

(** The keystrokes of a burst: each comes with the time since the previous
    one. *)
Definition typing (keys : list (Z * string)) : list Event :=
  flat_map (fun k => [Elapse (fst k); Input (snd k)]) keys.

(** Each keystroke changes the text. *)
Fixpoint changing (q : string) (keys : list (Z * string)) : Prop :=
  match keys with
  | [] => True
  | k :: rest => snd k <> q /\ changing (snd k) rest
  end.

(** The component is mounted, [q] has been typed last, and the debounce timer
    is running; nothing else has moved since [w0]. *)
Definition waiting (w0 w : World) (q : string) : Prop :=
  loaded (search w) = true
  /\ isInitialLoad (search w) = false
  /\ query (search w) = q
  /\ lastQuery (search w) = q
  /\ viewOption (search w) = viewOption (search w0)
  /\ lastViewOption (search w) = viewOption (search w0)
  /\ TimersFacts.armed 500 tt (searchDebounceTimer (search w), timers w)
  /\ issued w = issued w0
  /\ epoch w = epoch w0.

Lemma input_arms (w0 w : World) (q : string) :
  loaded (search w) = true ->
  isInitialLoad (search w) = false ->
  lastQuery (search w) <> q ->
  viewOption (search w) = viewOption (search w0) ->
  lastViewOption (search w) = viewOption (search w0) ->
  TimersFacts.armed 500 tt
    (Timers.debounceSearch tt 500 (searchDebounceTimer (search w), timers w)) ->
  issued w = issued w0 -> epoch w = epoch w0 ->
  waiting w0 (step w (Input q)) q.
Proof.
  intros Hl Hi Hq Hv Hlv Harm Hiss Hep.
  cbn [step]. unfold flush, react_query. cbn [search set_search set_query
    loaded isInitialLoad query lastQuery searchDebounceTimer timers].
  rewrite Hl, Hi. cbn [andb negb].
  assert (E : (q =? lastQuery (search w))%string = false).
  { apply String.eqb_neq. congruence. }
  rewrite E. cbn [negb].
  destruct (Timers.debounceSearch tt 500 (searchDebounceTimer (search w), timers w))
    as [h e] eqn:D.
  unfold react_viewOption. cbn. rewrite Hv, Hlv, String.eqb_refl. cbn.
  unfold waiting. cbn. repeat split; try assumption; reflexivity.
Qed.

Lemma typing_keeps_waiting (w0 : World) (keys : list (Z * string)) (w : World) (q : string) :
  waiting w0 w q ->
  changing q keys ->
  Forall (fun k => 0 <= fst k < 500) keys ->
  waiting w0 (run (typing keys) w) (List.last (map snd keys) q).
Proof.
  revert w q. induction keys as [|[gap q'] keys IH]; intros w q Hw Hch Hgaps.
  - exact Hw.
  - destruct Hch as [Hne Hch]. simpl in Hne, Hch.
    inversion Hgaps as [|? ? Hgap Hrest]; subst. simpl in Hgap.
    destruct Hw as (Hl & Hi & Hq & Hlq & Hv & Hlv & Harm & Hiss & Hep).
    destruct (TimersFacts.elapse_early 500 tt _ _ gap Harm Hgap)
      as (e1 & E1 & Hp & h & Hh).
    change (map snd ((gap, q') :: keys)) with (q' :: map snd keys).
    rewrite JSFacts.last_cons.
    change (run (typing ((gap, q') :: keys)) w)
      with (run (typing keys) (step (step w (Elapse gap)) (Input q'))).
    apply IH; [|assumption|assumption].
    assert (Es : step w (Elapse gap) = set_timers e1 w).
    { cbn [step]. now rewrite E1. }
    rewrite Es. apply input_arms; cbn; try assumption; try congruence.
    destruct Harm as (h' & Hh' & Hp'). cbn in Hh', Hp'.
    rewrite Hh'. eapply TimersFacts.debounce_rearm. rewrite Hp. exact Hp'.
Qed.

(** For the search box of Knowledge.svelte: after a burst of keystrokes, each
    changing the text and each within 500 ms of the previous one, no request
    has been sent; once 500 ms have passed, exactly one request has been
    sent, for the first page of the text typed last. *)
Lemma typing_sends_one_request
  (w : World) (q0 : string) (keys : list (Z * string)) (wait : Z) :
  loaded (search w) = true ->
  isInitialLoad (search w) = false ->
  lastQuery (search w) = query (search w) ->
  lastViewOption (search w) = viewOption (search w) ->
  Timers.pending (timers w) = [] ->
  changing (query (search w)) ((0, q0) :: keys) ->
  Forall (fun k => 0 <= fst k < 500) keys ->
  500 <= wait ->
  let w1 := run (Input q0 :: typing keys) w in
  issued w1 = issued w
  /\ issued (step w1 (Elapse wait))
     = issued w ++ [ {| rq_query := List.last (map snd keys) q0;
                        rq_viewOption := viewOption (search w);
                        rq_page := 1;
                        rq_epoch := S (epoch w) |} ].
Proof.
  intros Hl Hi Hlq Hlv Hidle [Hne Hch] Hgaps Hwait w1. simpl in Hne, Hch.
  assert (H0 : waiting w (step w (Input q0)) q0).
  { apply input_arms; try assumption; try reflexivity; try congruence.
    now apply TimersFacts.debounce_idle. }
  pose proof (typing_keeps_waiting w keys _ q0 H0 Hch Hgaps) as Hw.
  change (run (typing keys) (step w (Input q0))) with w1 in Hw. clearbody w1.
  destruct Hw as (Hl1 & Hi1 & Hq1 & Hlq1 & Hv1 & Hlv1 & Harm & Hiss & Hep).
  split; [assumption|].
  destruct (TimersFacts.elapse_late 500 tt _ wait Harm) as (e' & E' & Hp'); [lia|].
  cbn [step]. cbn [snd] in E'. rewrite E'. cbn [fold_left].
  unfold debounced. cbn [search set_timers]. rewrite Hq1, Hlq1, String.eqb_refl.
  cbn. rewrite Hiss, Hq1, Hv1, Hep. reflexivity.
Qed.

(** *** Teardown *)

(** Every pending timer is the one [searchDebounceTimer] names. *)
Definition timer_owned (w : World) : Prop :=
  Timers.pending (timers w) = []
  \/ exists h d, searchDebounceTimer (search w) = Some h
       /\ Timers.pending (timers w)
          = [ {| Timers.handle := h; Timers.deadline := d; Timers.callback := tt |} ].

Lemma init_frame (w : World) :
  search (init w) = search w /\ timers (init w) = timers w.
Proof. split; reflexivity. Qed.

Lemma debounced_frame (w : World) :
  search (debounced w) = search w /\ timers (debounced w) = timers w.
Proof. unfold debounced. destruct (_ =? _)%string; split; reflexivity. Qed.

Lemma timer_owned_frame (w w' : World) :
  searchDebounceTimer (search w') = searchDebounceTimer (search w) ->
  timers w' = timers w -> timer_owned w -> timer_owned w'.
Proof. unfold timer_owned. intros -> ->. trivial. Qed.

Lemma fold_debounced_frame (fired : list unit) (w : World) :
  search (fold_left (fun w' _ => debounced w') fired w) = search w
  /\ timers (fold_left (fun w' _ => debounced w') fired w) = timers w.
Proof.
  revert w. induction fired as [|u fired IH]; intros w; simpl; [split; reflexivity|].
  destruct (IH (debounced w)) as [-> ->]. apply debounced_frame.
Qed.

Lemma react_query_owned (w : World) : timer_owned w -> timer_owned (react_query w).
Proof.
  intros H. unfold react_query.
  destruct (loaded (search w) && negb (isInitialLoad (search w))); [|assumption].
  destruct (negb (query (search w) =? lastQuery (search w))%string); [|assumption].
  right. unfold Timers.debounceSearch. simpl.
  destruct H as [H|(h & d & Hh & Hp)].
  - destruct (searchDebounceTimer (search w)); simpl; rewrite H; simpl;
      do 2 eexists; split; reflexivity.
  - rewrite Hh. simpl. rewrite Hp. simpl. rewrite Pos.eqb_refl. simpl.
    do 2 eexists; split; reflexivity.
Qed.

Lemma cancel_clears (s : Search) (e : Timers.Env unit) :
  (Timers.pending e = []
   \/ exists h d, searchDebounceTimer s = Some h
        /\ Timers.pending e
           = [ {| Timers.handle := h; Timers.deadline := d; Timers.callback := tt |} ]) ->
  Timers.pending (snd (Timers.cancel (searchDebounceTimer s, e))) = [].
Proof.
  unfold Timers.cancel. simpl. intros [H|(h & d & Hh & Hp)].
  - destruct (searchDebounceTimer s); simpl; now rewrite ?H.
  - rewrite Hh. simpl. rewrite Hp. simpl. now rewrite Pos.eqb_refl.
Qed.

Lemma react_viewOption_owned (w : World) :
  timer_owned w -> timer_owned (react_viewOption w).
Proof.
  intros H. unfold react_viewOption.
  destruct (loaded (search w) && negb (viewOption (search w) =? lastViewOption (search w))%string
            && negb (isInitialLoad (search w))); [|assumption].
  pose proof (cancel_clears (search w) (timers w) H) as Hc.
  destruct (Timers.cancel (searchDebounceTimer (search w), timers w)) as [h e].
  simpl in Hc. left. exact Hc.
Qed.

Lemma flush_owned (w : World) : timer_owned w -> timer_owned (flush w).
Proof. intros H. apply react_viewOption_owned, react_query_owned, H. Qed.

Lemma step_owned (w : World) (ev : Event) : timer_owned w -> timer_owned (step w ev).
Proof.
  intros H. destruct ev as [stored|q|v| |i s|dt| ]; cbn [step].
  - unfold onMount. apply flush_owned.
    eapply timer_owned_frame; [| |exact H]; reflexivity.
  - apply flush_owned. exact H.
  - apply flush_owned. exact H.
  - destruct (load_more_offered (paging w) && negb (itemsLoading (paging w)));
      [|assumption].
    unfold loadMoreItems.
    destruct (_ || _); [assumption|]. destruct (_ || _); [assumption|]. exact H.
  - unfold getItemsPage_settle. destruct (nth_error (inflight w) i); [|assumption].
    destruct (getItemsPage_resume (caught s) (paging w)). exact H.
  - destruct (Timers.elapse dt (timers w)) as [fired e] eqn:E.
    destruct (fold_debounced_frame fired (set_timers e w)) as [Hs Ht].
    unfold timer_owned. rewrite Hs, Ht. simpl.
    unfold Timers.elapse in E. injection E as _ <-. simpl.
    destruct H as [H|(h & d & Hh & Hp)].
    + left. now rewrite H.
    + rewrite Hp. simpl. destruct (negb (Timers.due (Timers.now (timers w) + dt) _)).
      * right. now exists h, d.
      * now left.
  - unfold onDestroy.
    pose proof (cancel_clears (search w) (timers w) H) as Hc.
    destruct (Timers.cancel (searchDebounceTimer (search w), timers w)) as [h e].
    simpl in Hc. left. exact Hc.
Qed.

Lemma run_owned (evs : list Event) (w : World) : timer_owned w -> timer_owned (run evs w).
Proof.
  revert w. induction evs as [|ev evs IH]; intros w H; simpl; [assumption|].
  apply IH, step_owned, H.
Qed.

(** Whatever happened before, [onDestroy] leaves no timer pending, and no
    request is sent by time passing afterwards. *)
Lemma onDestroy_cancels_the_timer (evs : list Event) (dt : Z) :
  let w := run (evs ++ [Destroy]) initial in
  Timers.pending (timers w) = [] /\ step w (Elapse dt) =
    set_timers {| Timers.now := Timers.now (timers w) + dt;
                  Timers.next_handle := Timers.next_handle (timers w);
                  Timers.pending := [] |} w.
Proof.
  intros w.
  assert (Hp : Timers.pending (timers w) = []).
  { subst w. unfold run. rewrite fold_left_app. simpl.
    assert (H : timer_owned (fold_left step evs initial))
      by (apply (run_owned evs initial); now left).
    unfold onDestroy.
    pose proof (cancel_clears _ _ H) as Hc.
    destruct (Timers.cancel _) as [h e]. exact Hc. }
  split; [exact Hp|].
  simpl. unfold Timers.elapse. rewrite Hp. reflexivity.
Qed.

End KnowledgeFacts.

(** ** Filtering, sorting and tag editing of Chats.svelte *)

Module ChatsFacts.
Import JS JSFacts Chats.

(** *** The tag difference of [saveTag] *)

Lemma kept_tag (t : string) :
  truthy t && (0 <? String.length t)%nat = true <-> t <> EmptyString.
Proof.
  destruct t; split; intros H; try discriminate; try reflexivity.
  now destruct H.
Qed.

Lemma newTags_In (selected : list string) (t : string) :
  In t (newTags selected)
  <-> t <> EmptyString /\ exists u, In u selected /\ trim u = t.
Proof.
  unfold newTags. rewrite from_set_In, filter_In, in_map_iff, kept_tag.
  split.
  - intros [(u & E & Hu) Ht]. split; [assumption|]. now exists u.
  - intros [Ht (u & Hu & E)]. split; [|assumption]. now exists u.
Qed.

Lemma tagsToRemove_In (currentTags selected : list string) (t : string) :
  In t (tagsToRemove currentTags selected)
  <-> In t currentTags /\ ~ In t (newTags selected).
Proof. unfold tagsToRemove. now rewrite filter_In, array_includes_not_In. Qed.

Lemma tagsToAdd_In (currentTags selected : list string) (t : string) :
  In t (tagsToAdd currentTags selected)
  <-> In t (newTags selected) /\ ~ In t currentTags.
Proof. unfold tagsToAdd. now rewrite filter_In, array_includes_not_In. Qed.

Lemma nothing_In {A} (l : list A) : (forall x, ~ In x l) -> l = [].
Proof. destruct l as [|x l]; [reflexivity|]. intros H. destruct (H x). now left. Qed.

(** Normalisation touches the edited list only: a stored tag with a blank at
    an end is not the same tag as its trimmed form, so saving the unchanged
    tags removes the one and adds the other. *)
Lemma unchanged_tags_still_differ :
  tagsToAdd [" x "%string] [" x "%string] = ["x"%string]
  /\ tagsToRemove [" x "%string] [" x "%string] = [" x "%string].
Proof. split; reflexivity. Qed.

(** C5, amended.  [tagsToRemove] is the stored tags minus the normalised
    selection and [tagsToAdd] the normalised selection minus the stored tags,
    where normalising trims every entry and drops empty entries and
    duplicates.  For stored tags that are themselves trimmed and not empty,
    saving them unchanged adds and removes nothing.  Stored {"a","b"} with
    selection {"b","c"," c ",""} adds {"c"} and removes {"a"}. *)
Theorem tag_difference (baseline proposed : list string) :
  (forall t, In t (newTags proposed)
             <-> t <> EmptyString /\ exists u, In u proposed /\ trim u = t)
  /\ List.NoDup (newTags proposed)
  /\ (forall t, In t (tagsToRemove baseline proposed)
                <-> In t baseline /\ ~ In t (newTags proposed))
  /\ (forall t, In t (tagsToAdd baseline proposed)
                <-> In t (newTags proposed) /\ ~ In t baseline)
  /\ (Forall (fun t => t <> EmptyString /\ trim t = t) baseline ->
      tagsToAdd baseline baseline = [] /\ tagsToRemove baseline baseline = [])
  /\ (tagsToAdd ["a"; "b"] ["b"; "c"; " c "; ""] = ["c"]
      /\ tagsToRemove ["a"; "b"] ["b"; "c"; " c "; ""] = ["a"])%string.
Proof.
  split; [apply newTags_In|].
  split; [apply from_set_NoDup|].
  split; [apply tagsToRemove_In|].
  split; [apply tagsToAdd_In|].
  split; [|split; reflexivity].
  intros Hnorm. rewrite List.Forall_forall in Hnorm. split; apply nothing_In; intros t.
  - rewrite tagsToAdd_In, newTags_In. intros [[_ (u & Hu & E)] Hnot].
    apply Hnot. destruct (Hnorm u Hu) as [_ Eu]. congruence.
  - rewrite tagsToRemove_In, newTags_In. intros [Ht Hnot].
    apply Hnot. destruct (Hnorm t Ht) as [Hne Et]. split; [assumption|].
    now exists t.
Qed.

Lemma tag_difference_witness :
  (tagsToAdd ["a"; "b"] ["a"; "b"] = []
   /\ tagsToRemove ["a"; "b"] ["a"; "b"] = [])%string.
Proof.
  apply (tag_difference ["a"; "b"]%string ["a"; "b"]%string).
  repeat constructor; discriminate.
Defined.

(** *** The store *)

Lemma alloc_array_fresh (l : list positive) (h : Heap) :
  arrays h !! fst (alloc_array l h) = None.
Proof. apply not_elem_of_dom, is_fresh. Qed.

Lemma alloc_array_kept (l : list positive) (h : Heap) (a : positive) (x : list positive) :
  arrays h !! a = Some x -> arrays (snd (alloc_array l h)) !! a = Some x.
Proof.
  intros H. simpl. rewrite lookup_insert_ne; [assumption|].
  intros E. pose proof (alloc_array_fresh l h) as F. simpl in F.
  rewrite E in F. congruence.
Qed.

Section Collation.
Variable localeCompare : string -> string -> Z.

(** The chats that pass the filter, in the order of [allChatsData]. *)
Definition kept (w : World) : list positive :=
  if truthy (trim (query (vars w))) then
    List.filter (fun r => matches (toLowerCase (query (vars w))) (deref (heap w) r))
      (read (heap w) (allChatsData (vars w)))
  else read (heap w) (allChatsData (vars w)).

Definition by_sort_key (w : World) (x y : positive) : Z :=
  comparator localeCompare (sortBy (vars w)) (sortOrder (vars w))
    (deref (heap w) x) (deref (heap w) y).

(** [applyFiltersAndSort] writes one variable, [filteredChats], and fills
    arrays it has just created. *)
Lemma applyFiltersAndSort_effect (w : World) :
  let w' := applyFiltersAndSort localeCompare w in
  vars w' = set_filteredChats (filteredChats (vars w')) (vars w)
  /\ objects (heap w') = objects (heap w)
  /\ arrays (heap w) !! filteredChats (vars w') = None
  /\ arrays (heap w') !! filteredChats (vars w') = Some (sort (by_sort_key w) (kept w))
  /\ (forall a x, arrays (heap w) !! a = Some x -> arrays (heap w') !! a = Some x)
  /\ timers w' = timers w.
Proof.
  unfold applyFiltersAndSort, kept, by_sort_key.
  destruct (truthy (trim (query (vars w)))).
  - set (l := List.filter _ _).
    pose proof (alloc_array_fresh l (heap w)) as F1.
    pose proof (alloc_array_kept l (heap w)) as K1.
    destruct (alloc_array l (heap w)) as [a1 h1] eqn:E1.
    assert (R1 : read h1 a1 = l).
    { unfold alloc_array in E1. injection E1 as <- <-.
      unfold read. simpl. now rewrite lookup_insert_eq. }
    assert (O1 : objects h1 = objects (heap w))
      by (unfold alloc_array in E1; now injection E1 as <- <-).
    pose proof (alloc_array_fresh (read h1 a1) h1) as F2.
    pose proof (alloc_array_kept (read h1 a1) h1) as K2.
    simpl in F1, K1, F2, K2 |- *. rewrite R1 in *.
    repeat split.
    + assumption.
    + destruct (arrays (heap w) !! fresh (dom (arrays h1))) eqn:E; [|reflexivity].
      apply K1 in E. congruence.
    + rewrite lookup_insert_eq. f_equal. unfold read, deref. simpl.
      rewrite lookup_insert_eq, O1. reflexivity.
    + intros a x H. rewrite lookup_insert_ne.
      * apply K2, K1, H.
      * intros <-. apply K1 in H. congruence.
  - pose proof (alloc_array_fresh (read (heap w) (allChatsData (vars w))) (heap w)) as F.
    pose proof (alloc_array_kept (read (heap w) (allChatsData (vars w))) (heap w)) as K.
    simpl in F, K |- *.
    repeat split.
    + assumption.
    + rewrite lookup_insert_eq. f_equal. unfold read, deref. simpl.
      rewrite lookup_insert_eq. reflexivity.
    + intros a x H. rewrite lookup_insert_ne.
      * apply K, H.
      * intros <-. congruence.
Qed.

(** *** C10 *)

(** C10.  [applyFiltersAndSort] leaves [allChatsData] alone, for every query,
    sort key and sort order: the variable names the same array, the array
    holds the same chats in the same order, no chat object and no array that
    existed before is changed, and of the variables only [filteredChats] is
    written.  [filteredChats] names an array created by the call, which holds
    the filtered chats, sorted. *)
Theorem applyFiltersAndSort_leaves_allChatsData (w : World) (l : list positive) :
  arrays (heap w) !! allChatsData (vars w) = Some l ->
  let w' := applyFiltersAndSort localeCompare w in
  allChatsData (vars w') = allChatsData (vars w)
  /\ arrays (heap w') !! allChatsData (vars w') = Some l
  /\ objects (heap w') = objects (heap w)
  /\ (forall a x, arrays (heap w) !! a = Some x -> arrays (heap w') !! a = Some x)
  /\ vars w' = set_filteredChats (filteredChats (vars w')) (vars w)
  /\ filteredChats (vars w') <> allChatsData (vars w)
  /\ arrays (heap w) !! filteredChats (vars w') = None
  /\ arrays (heap w') !! filteredChats (vars w')
     = Some (sort (by_sort_key w)
               (if truthy (trim (query (vars w))) then
                  List.filter
                    (fun r => matches (toLowerCase (query (vars w))) (deref (heap w) r)) l
                else l)).
Proof.
  intros Hl w'.
  destruct (applyFiltersAndSort_effect w) as (Hv & Ho & Hf & Hs & Hk & _).
  fold w' in Hv, Ho, Hf, Hs, Hk.
  assert (Ha : allChatsData (vars w') = allChatsData (vars w)) by now rewrite Hv.
  repeat split; try assumption.
  - rewrite Ha. now apply Hk.
  - intros E. rewrite E in Hf. congruence.
  - rewrite Hs. unfold kept, read. now rewrite Hl.
Qed.

(** *** C9 *)

Lemma shown_after_filter (w : World) (r : positive) :
  In r (read (heap (applyFiltersAndSort localeCompare w))
          (filteredChats (vars (applyFiltersAndSort localeCompare w))))
  <-> In r (kept w).
Proof.
  destruct (applyFiltersAndSort_effect w) as (_ & _ & _ & Hs & _).
  unfold read. rewrite Hs. simpl. apply sort_In.
Qed.

Definition project_x : ChatData :=
  {| id := "c1"; title := Some "Project X"%string; updated_at := Some 10;
     models := Some ["gpt"%string]; tags := Some ["alpha"%string] |}.

Definition other : ChatData :=
  {| id := "c2"; title := Some "Other"%string; updated_at := Some 20;
     models := Some ["llama"%string]; tags := Some ["project-tag"%string] |}.

Definition notes : ChatData :=
  {| id := "c3"; title := Some "Notes"%string; updated_at := Some 30;
     models := None; tags := None |}.

(** C9.  With a query that is not blank, a chat of [allChatsData] is in
    [filteredChats] exactly when the lower-cased query occurs in its
    lower-cased title, in its lower-cased model names joined by a space, or
    in its lower-cased tags joined by a space.  The query "proj" keeps both
    the chat titled "Project X" and the chat tagged "project-tag", and drops
    a chat that has neither. *)
Theorem filter_keeps_substring_matches :
  (forall (w : World) (r : positive),
      trim (query (vars w)) <> EmptyString ->
      let w' := applyFiltersAndSort localeCompare w in
      let chat := deref (heap w) r in
      let q := toLowerCase (query (vars w)) in
      In r (read (heap w') (filteredChats (vars w')))
      <-> In r (read (heap w) (allChatsData (vars w)))
          /\ (Substring q (toLowerCase (default EmptyString (title chat)))
              \/ Substring q (toLowerCase (join " " (default [] (models chat))))
              \/ Substring q (toLowerCase (join " " (default [] (tags chat))))))
  /\ shown (run localeCompare
              [Mount; Loaded [project_x; other; notes]; Input "proj"; Elapse 500]
              initial)
     = [other; project_x].
Proof.
  split; [|vm_compute; reflexivity].
  intros w r Hq w' chat q. subst w' chat q.
  rewrite shown_after_filter. unfold kept.
  destruct (trim (query (vars w))) eqn:E; [congruence|]. simpl.
  rewrite filter_In. unfold matches.
  rewrite !orb_true_iff, !includes_Substring. tauto.
Qed.

(** *** C6 *)

(** C6, amended.  For the chat being edited, every remove and every add of
    the batch is sent, whatever fails.  When an add fails, [saveTag] stops
    there: the state is what it was (the tags of the chat and the edit state
    included), nothing is read back, and an error is shown.  When no add
    fails, failed removes change nothing: the tags are read back and the chat
    gets the normalised reply. *)
Theorem saveTag_batch (api : Api) (chatId : string) (w : World) (r : positive) :
  List.find (fun x => (id (deref (heap w) x) =? chatId)%string)
    (read (heap w) (allChatsData (vars w))) = Some r ->
  let currentTags := default [] (tags (deref (heap w) r)) in
  let removes := tagsToRemove currentTags (selectedTagsForChat (vars w)) in
  let adds := tagsToAdd currentTags (selectedTagsForChat (vars w)) in
  let batch := map (DeleteTag chatId) removes ++ map (AddTag chatId) adds in
  (exists rest, snd (fst (saveTag localeCompare api chatId w)) = batch ++ rest)
  /\ ((exists i, (i < length adds)%nat /\ batch_ok api (length removes + i) = false) ->
      saveTag localeCompare api chatId w
      = (w, batch, [ToastError "Failed to update tag"]))
  /\ ((forall i, (i < length adds)%nat -> batch_ok api (length removes + i) = true) ->
      forall reply, tags_reply api = Fulfils reply ->
        (exists rest, snd (fst (saveTag localeCompare api chatId w))
                      = batch ++ GetTags chatId :: rest)
        /\ tags (deref (heap (fst (fst (saveTag localeCompare api chatId w)))) r)
           = Some (normalizeTags reply)).
Proof.
  intros Hfind currentTags removes adds batch.
  unfold saveTag. rewrite Hfind.
  fold currentTags. fold removes. fold adds. fold batch.
  destruct (forallb _ (seq 0 (length adds))) eqn:Eall.
  - rewrite forallb_forall in Eall.
    assert (Hok : forall i, (i < length adds)%nat ->
                            batch_ok api (length removes + i) = true).
    { intros i Hi. apply Eall, in_seq. lia. }
    split; [|split].
    + destruct (tags_reply api); [destruct (all_tags_reply api)|];
        simpl; eexists; reflexivity.
    + intros (i & Hi & Hfail). rewrite (Hok i Hi) in Hfail. discriminate.
    + intros _ reply ->. destruct (all_tags_reply api) as [every|].
      * split; [simpl; eexists; reflexivity|].
        cbn [fst snd heap set_vars]. unfold deref at 1.
        match goal with
        | |- context [applyFiltersAndSort localeCompare ?x] =>
            destruct (applyFiltersAndSort_effect x) as (_ & -> & _)
        end.
        simpl. now rewrite lookup_insert_eq.
      * split; [simpl; eexists; reflexivity|].
        simpl. unfold deref at 1. simpl. now rewrite lookup_insert_eq.
  - split; [|split].
    + exists []. simpl. now rewrite app_nil_r.
    + reflexivity.
    + intros Hok. exfalso.
      assert (Hall : forallb (fun i => batch_ok api (length removes + i))
                       (seq 0 (length adds)) = true).
      { apply forallb_forall. intros i Hi. apply in_seq in Hi. apply Hok. lia. }
      congruence.
Qed.

End Collation.

(** A collation for the examples: by code units. *)
Definition by_code_units (a b : string) : Z :=
  match String.compare a b with
  | Lt => -1
  | Eq => 0
  | Gt => 1
  end.

(** Three chats are loaded and "proj" is in the search box. *)
Definition searching : World :=
  run by_code_units [Mount; Loaded [project_x; other; notes]; Input "proj"] initial.

Lemma applyFiltersAndSort_leaves_allChatsData_witness :
  arrays (heap (applyFiltersAndSort by_code_units searching))
    !! allChatsData (vars (applyFiltersAndSort by_code_units searching))
  = Some [1; 2; 3]%positive.
Proof.
  refine (proj1 (proj2
    (applyFiltersAndSort_leaves_allChatsData by_code_units searching [1; 2; 3]%positive _))).
  vm_compute. reflexivity.
Defined.

Lemma filter_keeps_substring_matches_witness :
  In 1%positive
    (read (heap (applyFiltersAndSort by_code_units searching))
       (filteredChats (vars (applyFiltersAndSort by_code_units searching)))).
Proof.
  refine (proj2 (proj1 (filter_keeps_substring_matches by_code_units)
                   searching 1%positive _) _).
  - vm_compute. discriminate.
  - split; [vm_compute; tauto|].
    left. exists EmptyString, "ect x"%string. vm_compute. reflexivity.
Defined.

(** The editor is open on the chat "c1", whose tag is "alpha"; the user has
    deselected "alpha" and selected "beta" and "gamma". *)
Definition editing : World :=
  toggleTag "gamma" (toggleTag "beta" (toggleTag "alpha"
    (startEditTag 1 (run by_code_units [Mount; Loaded [project_x]] initial)))).

(** The server refuses to add "beta" and accepts everything else. *)
Definition refuses_beta : Api :=
  {| batch_ok := fun i => negb (i =? 1)%nat;
     tags_reply := Fulfils (Some [TagString "gamma"]);
     all_tags_reply := Fulfils (Some [TagString "alpha"; TagString "beta"; TagString "gamma"]) |}.

(** The add of "beta" fails: the add of "gamma", which comes after it, has
    been sent all the same, the tags are not read back, and the chat keeps
    the tag "alpha" it had before. *)
Lemma failed_add_skips_the_reread :
  let '(w, calls, toasts) := saveTag by_code_units refuses_beta "c1" editing in
  calls = [DeleteTag "c1" "alpha"; AddTag "c1" "beta"; AddTag "c1" "gamma"]
  /\ ~ In (GetTags "c1") calls
  /\ tags (deref (heap w) 1) = Some ["alpha"%string]
  /\ editingTagChatId (vars w) = Some "c1"%string
  /\ toasts = [ToastError "Failed to update tag"].
Proof.
  vm_compute. repeat split; try reflexivity.
  intros [H|[H|[H|[]]]]; discriminate.
Qed.

Lemma saveTag_batch_witness :
  saveTag by_code_units refuses_beta "c1" editing
  = (editing,
     [DeleteTag "c1" "alpha"; AddTag "c1" "beta"; AddTag "c1" "gamma"],
     [ToastError "Failed to update tag"]).
Proof.
  refine (proj1 (proj2
    (saveTag_batch by_code_units refuses_beta "c1" editing 1%positive _)) _).
  - vm_compute. reflexivity.
  - exists 0%nat. split; [vm_compute; lia | reflexivity].
Defined.

(** *** The debounced filter *)

(** "p", "pr", "proj" typed 100 ms apart: the view is recomputed once, 500 ms
    after the last keystroke. *)
Lemma typing_burst_recomputes_once :
  let w0 := run by_code_units [Mount; Loaded [project_x; other; notes]; Elapse 500] initial in
  let w := run by_code_units
             [Input "p"; Elapse 100; Input "pr"; Elapse 100; Input "proj"; Elapse 499] w0 in
  recomputed w = recomputed w0
  /\ recomputed (step by_code_units w (Elapse 1)) = S (recomputed w0)
  /\ shown (step by_code_units w (Elapse 1)) = [other; project_x].
Proof. vm_compute. repeat split; reflexivity. Qed.

(** *** C8 *)

(** C8, at the failing input.  Chats.svelte registers nothing with
    [onDestroy]: destroying the component leaves the debounce timer pending,
    and when the delay has passed the callback runs [applyFiltersAndSort] on
    the destroyed component.  Knowledge.svelte clears its timer in
    [onDestroy] ([KnowledgeFacts.onDestroy_cancels_the_timer]). *)
Theorem chats_timer_outlives_the_component :
  (forall (localeCompare : string -> string -> Z) (w : World),
      timers (step localeCompare w Destroy) = timers w
      /\ vars (step localeCompare w Destroy) = vars w)
  /\ let w := step by_code_units searching Destroy in
     destroyed w = true
     /\ Timers.pending (timers w)
        = [ {| Timers.handle := 2; Timers.deadline := 500; Timers.callback := tt |} ]
     /\ let w' := step by_code_units w (Elapse 500) in
        recomputed w' = S (recomputed w)
        /\ filteredChats (vars w') <> filteredChats (vars w)
        /\ shown w' = [other; project_x].
Proof.
  split; [intros; split; reflexivity|].
  vm_compute. repeat split; try reflexivity. discriminate.
Qed.

End ChatsFacts.

(* ------------------------------------------------------------------------- *)
(** * The rest of Chats.svelte: loading the chats and editing a title *)

Module ChatsEditing.
Import JS Chats.

(** [a || b] on numbers: 0 and a missing value are falsy. *)
Definition or_number (a : option Z) (b : Z) : Z :=
  match a with
  | Some x => if x =? 0 then b else x
  | None => b
  end.

(** [fullChat?.chat?.models]: missing, an array of model ids, or a single
    model id. *)
Inductive ModelsField :=
| NoModels
| ModelArray (l : list string)
| SingleModel (m : string).

(** What [getChatById] resolves with, as far as [init] reads it. *)
Record FullChat := { chat_models : ModelsField; full_updated_at : option Z }.

(** [fullChat?.chat?.models ? (Array.isArray(..) ? .. : [..]) : []]; an array
    is truthy even when empty, the empty string is falsy. *)
Definition models_of (fullChat : option FullChat) : list string :=
  match fullChat with
  | None => []
  | Some f =>
      match chat_models f with
      | NoModels => []
      | ModelArray l => l
      | SingleModel m => if truthy m then [m] else []
      end
  end.

Definition full_updated (fullChat : option FullChat) : option Z :=
  match fullChat with
  | None => None
  | Some f => full_updated_at f
  end.

(** The body of the [chats.map] callback of [init]: the two requests for one
    chat are awaited together, and a rejection of either is caught. *)
Definition enrich (chat : ChatData)
  (details : Outcome (option FullChat * option (list TagItem))) : ChatData :=
  match details with
  | Fulfils (fullChat, tagsResponse) =>
      {| id := id chat; title := title chat;
         updated_at := Some (or_number (updated_at chat)
                               (or_number (full_updated fullChat) 0));
         models := Some (models_of fullChat);
         tags := Some (normalizeTags tagsResponse) |}
  | Rejects =>
      {| id := id chat; title := title chat;
         updated_at := Some (or_number (updated_at chat) 0);
         models := Some [];
         tags := Some [] |}
  end.

(** [chats.map(...)], the [i]-th chat with the answers [details i]. *)
Fixpoint enrich_all (i : nat) (chats : list ChatData)
  (details : nat -> Outcome (option FullChat * option (list TagItem)))
  : list ChatData :=
  match chats with
  | [] => []
  | c :: rest => enrich c (details i) :: enrich_all (S i) rest details
  end.

Definition set_allTags (l : list TagItem) (v : Vars) : Vars :=
  {| loaded := loaded v; query := query v; sortBy := sortBy v;
     sortOrder := sortOrder v; allChatsData := allChatsData v;
     allTags := l; filteredChats := filteredChats v;
     editingTagChatId := editingTagChatId v;
     selectedTagsForChat := selectedTagsForChat v;
     searchDebounceTimer := searchDebounceTimer v |}.

(** The variables of the title editor. *)
Record TitleEdit := { editingChatId : option string; editingTitle : string }.

Definition startEditTitle (chat : ChatData) : TitleEdit :=
  {| editingChatId := Some (id chat);
     editingTitle := default EmptyString (title chat) |}.

Definition cancelEditTitle : TitleEdit :=
  {| editingChatId := None; editingTitle := EmptyString |}.

(** [cancelEditTag] *)
Definition cancelEditTag (w : World) : World :=
  let v := vars w in
  set_vars {| loaded := loaded v; query := query v;
              sortBy := sortBy v; sortOrder := sortOrder v;
              allChatsData := allChatsData v; allTags := allTags v;
              filteredChats := filteredChats v;
              editingTagChatId := None;
              selectedTagsForChat := [];
              searchDebounceTimer := searchDebounceTimer v |} w.

(** [allChatsData[chatIndex].title = ...] *)
Definition assign_title (r : positive) (t : string) (h : Heap) : Heap :=
  let c := deref h r in
  {| objects := <[r := {| id := id c; title := Some t;
                           updated_at := updated_at c; models := models c;
                           tags := tags c |}]> (objects h);
     arrays := arrays h |}.

(** A call of [updateChatById] with the new title. *)
Inductive TitleCall := UpdateChat (chatId title : string).

Section Collation.
Variable localeCompare : string -> string -> Z.

(** [init], run to its end: [lists] is the answer to the two list requests,
    which are awaited together, [details i] the answer for the [i]-th chat. *)
Definition init
  (lists : Outcome (option (list ChatData) * option (list TagItem)))
  (details : nat -> Outcome (option FullChat * option (list TagItem)))
  (w : World) : World * list Toast :=
  match lists with
  | Rejects => (w, [ToastError "Failed to load chats"])
  | Fulfils (chatList, tagsList) =>
      let chats := default [] chatList in
      let w1 := set_vars (set_allTags (default [] tagsList) (vars w)) w in
      (chats_loaded localeCompare (enrich_all 0 chats details) w1, [])
  end.

(** [saveTitle], run to its end; [updated] tells whether [updateChatById]
    succeeds. *)
Definition saveTitle (updated : bool) (chatId : string) (e : TitleEdit) (w : World)
  : TitleEdit * World * list TitleCall * list Toast :=
  if (trim (editingTitle e) =? "")%string then
    (e, w, [], [ToastError "Title cannot be empty"])
  else
    let call := UpdateChat chatId (trim (editingTitle e)) in
    if updated then
      let h := heap w in
      let h1 := match List.find (fun r => (id (deref h r) =? chatId)%string)
                        (read h (allChatsData (vars w))) with
                | Some r => assign_title r (trim (editingTitle e)) h
                | None => h
                end in
      (cancelEditTitle, applyFiltersAndSort localeCompare (set_heap h1 w),
       [call], [ToastSuccess "Title updated successfully"])
    else (e, w, [call], [ToastError "Failed to update title"]).

End Collation.

End ChatsEditing.

(* ------------------------------------------------------------------------- *)
(** * Further properties of Knowledge.svelte *)

Module KnowledgeInvariants.
Import JS Knowledge KnowledgeFacts.

(** ** The continuation of [getItemsPage] *)

(** X1.  The continuation of [getItemsPage] throws in one situation only:
    the request was rejected (so [res] is the empty array of the [catch])
    while a list is shown.  A result object never makes it throw, and neither
    does a rejection while [items] is still [null] or [undefined]. *)
Theorem resume_throws_only_on_rejection_with_list (res : Res) (p : Paging) :
  snd (getItemsPage_resume res p) = TypeError
  <-> res = ResEmptyArray /\ exists l, items p = val l.
Proof.
  destruct res as [|r|].
  - unfold getItemsPage_resume. simpl. split; [discriminate|].
    intros [H _]. discriminate.
  - rewrite resume_fulfilled. simpl. split; [discriminate|].
    intros [H _]. discriminate.
  - change ResEmptyArray with (caught Rejected) at 1.
    destruct (items p) as [| |l] eqn:E.
    + rewrite resume_rejected_no_list by (rewrite E; exact I).
      simpl. split; [discriminate|]. intros [_ [l H]]. discriminate.
    + rewrite resume_rejected_no_list by (rewrite E; exact I).
      simpl. split; [discriminate|]. intros [_ [l H]]. discriminate.
    + rewrite (resume_rejected_list l p E).
      simpl. split; [|reflexivity]. intros _. split; [reflexivity|]. now exists l.
Qed.

(** X2.  A request that is rejected while no list is shown ends normally:
    the loading flag is cleared, [items] and [total] become [undefined],
    [allItemsLoaded] is set, the page stays, and the Load More button is not
    rendered, so [loadMoreItems] cannot run again for this list. *)
Theorem rejected_without_list_ends_loading (w : World) (i : nat) (rq : Request) :
  nth_error (inflight w) i = Some rq ->
  (forall l, items (paging w) <> val l) ->
  let w' := step w (Settle i Rejected) in
  uncaught w' = uncaught w
  /\ itemsLoading (paging w') = false
  /\ items (paging w') = undefined
  /\ total (paging w') = undefined
  /\ allItemsLoaded (paging w') = true
  /\ page (paging w') = page (paging w)
  /\ load_more_offered (paging w') = false
  /\ loadMoreItems w' = w'.
Proof.
  intros Hrq Hno w'. subst w'. cbn [step]. unfold getItemsPage_settle.
  rewrite Hrq. rewrite resume_rejected_no_list.
  - unfold loadMoreItems. simpl. repeat split.
  - destruct (items (paging w)) as [| |l]; [exact I | exact I |].
    now destruct (Hno l).
Qed.

Lemma rejected_without_list_ends_loading_witness :
  let w := run [Mount None] initial in
  let w' := step w (Settle 0 Rejected) in
  itemsLoading (paging w) = true
  /\ uncaught w' = uncaught w
  /\ itemsLoading (paging w') = false
  /\ items (paging w') = undefined
  /\ total (paging w') = undefined
  /\ allItemsLoaded (paging w') = true
  /\ page (paging w') = page (paging w)
  /\ load_more_offered (paging w') = false
  /\ loadMoreItems w' = w'.
Proof.
  split; [reflexivity|].
  apply (rejected_without_list_ends_loading (run [Mount None] initial) 0
           {| rq_query := ""; rq_viewOption := ""; rq_page := 1; rq_epoch := 1 |}).
  - reflexivity.
  - intros l. vm_compute. discriminate.
Defined.

(** ** Invariants of the component *)

(** Once mounted, the two change trackers agree with the values they track
    and the mount flag is down. *)
Definition in_sync (w : World) : Prop :=
  loaded (search w) = true ->
  lastQuery (search w) = query (search w)
  /\ lastViewOption (search w) = viewOption (search w)
  /\ isInitialLoad (search w) = false.

Lemma react_query_search (w : World) :
  loaded (search (react_query w)) = loaded (search w)
  /\ query (search (react_query w)) = query (search w)
  /\ viewOption (search (react_query w)) = viewOption (search w)
  /\ lastViewOption (search (react_query w)) = lastViewOption (search w)
  /\ isInitialLoad (search (react_query w)) = isInitialLoad (search w)
  /\ (loaded (search w) = true -> isInitialLoad (search w) = false ->
      lastQuery (search (react_query w)) = query (search w)).
Proof.
  unfold react_query.
  destruct (loaded (search w)) eqn:L; destruct (isInitialLoad (search w)) eqn:I;
    cbn [andb negb]; try (repeat split; congruence).
  destruct (query (search w) =? lastQuery (search w))%string eqn:E; cbn [negb].
  - apply String.eqb_eq in E. repeat split; congruence.
  - destruct (Timers.debounceSearch tt 500 (searchDebounceTimer (search w), timers w))
      as [h e].
    simpl. repeat split; congruence.
Qed.

Lemma react_viewOption_search (w : World) :
  loaded (search (react_viewOption w)) = loaded (search w)
  /\ query (search (react_viewOption w)) = query (search w)
  /\ viewOption (search (react_viewOption w)) = viewOption (search w)
  /\ lastQuery (search (react_viewOption w)) = lastQuery (search w)
  /\ isInitialLoad (search (react_viewOption w)) = isInitialLoad (search w)
  /\ (loaded (search w) = true -> isInitialLoad (search w) = false ->
      lastViewOption (search (react_viewOption w)) = viewOption (search w)).
Proof.
  unfold react_viewOption.
  destruct (loaded (search w)) eqn:L; destruct (isInitialLoad (search w)) eqn:I;
    cbn [andb negb]; rewrite ?andb_false_r; try (repeat split; congruence).
  destruct (viewOption (search w) =? lastViewOption (search w))%string eqn:E;
    cbn [andb negb].
  - apply String.eqb_eq in E. repeat split; congruence.
  - destruct (Timers.cancel (searchDebounceTimer (search w), timers w)) as [h e].
    simpl. repeat split; congruence.
Qed.

Lemma flush_in_sync (w : World) :
  (loaded (search w) = true -> isInitialLoad (search w) = false) ->
  in_sync (flush w).
Proof.
  intros Hm. unfold flush, in_sync.
  destruct (react_query_search w) as (L1 & Q1 & V1 & LV1 & I1 & LQ1).
  destruct (react_viewOption_search (react_query w)) as (L2 & Q2 & V2 & LQ2 & I2 & LV2).
  rewrite L2, L1, LQ2, Q2, Q1, V2, V1, I2, I1. intros L.
  split; [|split].
  - now apply LQ1; [|apply Hm].
  - rewrite LV2, V1; [reflexivity | congruence | rewrite I1; now apply Hm].
  - now apply Hm.
Qed.

Lemma step_in_sync (w : World) (ev : Event) : in_sync w -> in_sync (step w ev).
Proof.
  intros H. destruct ev as [stored|q|v| |i s|dt| ]; cbn [step].
  - unfold onMount. apply flush_in_sync. reflexivity.
  - apply flush_in_sync. simpl. intros L. now destruct (H L) as (_ & _ & ?).
  - apply flush_in_sync. simpl. intros L. now destruct (H L) as (_ & _ & ?).
  - destruct (_ && _); [|assumption]. unfold loadMoreItems.
    destruct (_ || _); [assumption|]. destruct (_ || _); [assumption|]. exact H.
  - unfold getItemsPage_settle. destruct (nth_error _ _); [|assumption].
    destruct (getItemsPage_resume _ _). exact H.
  - destruct (Timers.elapse dt (timers w)) as [fired e].
    destruct (fold_debounced_frame fired (set_timers e w)) as [Hs _].
    unfold in_sync. rewrite Hs. exact H.
  - unfold onDestroy. destruct (Timers.cancel _) as [h e]. exact H.
Qed.

Lemma run_in_sync (evs : list Event) (w : World) : in_sync w -> in_sync (run evs w).
Proof.
  revert w. induction evs as [|ev evs IH]; intros w H; [assumption|].
  apply IH, step_in_sync, H.
Qed.

Lemma reachable_in_sync (evs : list Event) : in_sync (run evs initial).
Proof. apply run_in_sync. intros L. discriminate. Qed.

Lemma reachable_owned (evs : list Event) : timer_owned (run evs initial).
Proof. apply run_owned. now left. Qed.

(** X3.  Whatever has happened to the component, once it is mounted
    [lastQuery] equals [query], [lastViewOption] equals [viewOption] and
    [isInitialLoad] is false: the reactive statements never leave a change
    undetected. *)
Theorem change_trackers_stay_in_sync (evs : list Event) :
  let w := run evs initial in
  if loaded (search w) then
    lastQuery (search w) = query (search w)
    /\ lastViewOption (search w) = viewOption (search w)
    /\ isInitialLoad (search w) = false
  else True.
Proof.
  intros w. pose proof (reachable_in_sync evs) as H. fold w in H.
  unfold in_sync in H. destruct (loaded (search w)); [now apply H | exact I].
Qed.

(** X4.  Whatever has happened to the component, at most one debounce timer
    is pending. *)
Theorem at_most_one_timer_pending (evs : list Event) :
  (length (Timers.pending (timers (run evs initial))) <= 1)%nat.
Proof.
  destruct (reachable_owned evs) as [H|(h & d & _ & H)]; rewrite H; simpl; lia.
Qed.

Lemma flush_fixed (w : World) :
  (loaded (search w) = true ->
   lastQuery (search w) = query (search w)
   /\ lastViewOption (search w) = viewOption (search w)) ->
  flush w = w.
Proof.
  intros H. unfold flush.
  assert (Eq : react_query w = w).
  { unfold react_query. destruct (loaded (search w)); [|reflexivity].
    destruct (H eq_refl) as [-> _]. rewrite String.eqb_refl.
    now destruct (negb (isInitialLoad (search w))). }
  rewrite Eq. unfold react_viewOption.
  destruct (loaded (search w)); [|reflexivity].
  destruct (H eq_refl) as [_ ->]. now rewrite String.eqb_refl.
Qed.

(** X5.  Giving the search box the text it already holds does nothing: no
    timer is started and no request is sent, in whatever state the component
    is. *)
Theorem same_text_is_no_change (evs : list Event) :
  let w := run evs initial in
  step w (Input (query (search w))) = w.
Proof.
  intros w. cbn [step].
  assert (E : set_search (set_query (query (search w)) (search w)) w = w).
  { destruct w as [p s t i u e n]. destruct s. reflexivity. }
  rewrite E. apply flush_fixed. intros L.
  destruct (reachable_in_sync evs L) as (H1 & H2 & _). now split.
Qed.

Lemma elapse_idle (w : World) (dt : Z) :
  Timers.pending (timers w) = [] ->
  Timers.pending (timers (step w (Elapse dt))) = []
  /\ issued (step w (Elapse dt)) = issued w
  /\ paging (step w (Elapse dt)) = paging w
  /\ search (step w (Elapse dt)) = search w
  /\ inflight (step w (Elapse dt)) = inflight w.
Proof.
  intros H. cbn [step]. unfold Timers.elapse. rewrite H. simpl. repeat split.
Qed.

(** X6.  Choosing another view in the mounted component cancels the pending
    debounce timer, restarts the list and sends one request at once, for page
    1 of the current text under the new view.  Time passing afterwards sends
    nothing: the cancelled timer never fires. *)
Theorem view_change_reloads_at_once (evs : list Event) (v : string) (dt : Z) :
  let w := run evs initial in
  loaded (search w) = true ->
  v <> viewOption (search w) ->
  let w' := step w (SelectView v) in
  issued w' = issued w ++ [ {| rq_query := query (search w);
                               rq_viewOption := v;
                               rq_page := 1;
                               rq_epoch := S (epoch w) |} ]
  /\ searchDebounceTimer (search w') = None
  /\ Timers.pending (timers w') = []
  /\ paging w' = {| page := 1; items := null; total := null;
                    allItemsLoaded := false; itemsLoading := true;
                    hasLoadedInitialPage := false |}
  /\ issued (step w' (Elapse dt)) = issued w'.
Proof.
  intros w L Hv w'.
  destruct (reachable_in_sync evs L) as (Hq & Hlv & Hi). fold w in Hq, Hlv, Hi.
  pose proof (reachable_owned evs) as Hown. fold w in Hown.
  assert (Hc := cancel_clears (search w) (timers w) Hown).
  assert (Hn : fst (Timers.cancel (searchDebounceTimer (search w), timers w)) = None).
  { unfold Timers.cancel. simpl. now destruct (searchDebounceTimer (search w)). }
  assert (E : w' = init (set_timers (snd (Timers.cancel (searchDebounceTimer (search w), timers w)))
                      (set_search {| loaded := true; query := query (search w);
                                     viewOption := v; searchDebounceTimer := None;
                                     lastQuery := lastQuery (search w);
                                     lastViewOption := v;
                                     isInitialLoad := false |} w))).
  { subst w'. cbn [step]. unfold flush.
    assert (Eq : react_query (set_search (set_viewOption v (search w)) w)
                 = set_search (set_viewOption v (search w)) w).
    { unfold react_query. simpl. rewrite L, Hi, Hq, String.eqb_refl. reflexivity. }
    rewrite Eq. unfold react_viewOption. simpl. rewrite L, Hi, Hlv.
    assert (En : (v =? viewOption (search w))%string = false)
      by now apply String.eqb_neq.
    rewrite En. simpl.
    destruct (Timers.cancel (searchDebounceTimer (search w), timers w)) as [h e].
    simpl in Hn. subst h. reflexivity. }
  assert (Hp : Timers.pending (timers w') = []) by (rewrite E; exact Hc).
  split; [now rewrite E|]. split; [now rewrite E|]. split; [exact Hp|].
  split; [now rewrite E|]. now apply elapse_idle.
Qed.

Lemma view_change_reloads_at_once_witness :
  let w := run [Mount None; Input "x"] initial in
  let w' := step w (SelectView "shared") in
  Timers.pending (timers w) <> []
  /\ issued w' = issued w ++ [ {| rq_query := "x"; rq_viewOption := "shared";
                                  rq_page := 1; rq_epoch := 2 |} ]
  /\ Timers.pending (timers w') = []
  /\ issued (step w' (Elapse 500)) = issued w'.
Proof.
  split; [vm_compute; discriminate|].
  destruct (view_change_reloads_at_once [Mount None; Input "x"] "shared" 500)
    as (H1 & _ & H3 & _ & H5).
  - reflexivity.
  - vm_compute. discriminate.
  - repeat split; assumption.
Defined.

(** ** The page cursor *)

(** The page cursor is at least 1 and is the page of the request sent last;
    no request asks for a page below 1. *)
Definition page_tracks_requests (w : World) : Prop :=
  1 <= page (paging w)
  /\ List.last (map rq_page (issued w)) 1 = page (paging w)
  /\ Forall (fun rq => 1 <= rq_page rq) (issued w).

Lemma call_tracks (w : World) :
  1 <= page (paging w) ->
  Forall (fun rq => 1 <= rq_page rq) (issued w) ->
  page_tracks_requests (getItemsPage_call w).
Proof.
  intros Hp Hf. unfold page_tracks_requests, getItemsPage_call. simpl.
  split; [assumption|]. split.
  - rewrite map_app. simpl. apply last_last.
  - apply Forall_app. split; [assumption|]. constructor; [assumption|constructor].
Qed.

Lemma init_tracks (w : World) :
  Forall (fun rq => 1 <= rq_page rq) (issued w) -> page_tracks_requests (init w).
Proof. intros Hf. unfold init. apply call_tracks; simpl; [lia | assumption]. Qed.

Lemma resume_page (res : Res) (p : Paging) :
  page (fst (getItemsPage_resume res p)) = page p.
Proof.
  unfold getItemsPage_resume. destruct (res_truthy res); [|reflexivity].
  destruct (append_page _ _); [|reflexivity]. simpl.
  destruct (all_loaded_test _ _); [|reflexivity]. simpl.
  now destruct (page p =? 1).
Qed.

Lemma react_query_tracks (w : World) :
  page_tracks_requests w -> page_tracks_requests (react_query w).
Proof.
  intros H. unfold react_query. destruct (_ && _); [|assumption].
  destruct (negb _); [|assumption].
  destruct (Timers.debounceSearch tt 500 (searchDebounceTimer (search w), timers w)).
  exact H.
Qed.

Lemma react_viewOption_tracks (w : World) :
  page_tracks_requests w -> page_tracks_requests (react_viewOption w).
Proof.
  intros H. unfold react_viewOption. destruct (_ && _); [|assumption].
  destruct (Timers.cancel (searchDebounceTimer (search w), timers w)).
  apply init_tracks. apply H.
Qed.

Lemma debounced_tracks (w : World) :
  page_tracks_requests w -> page_tracks_requests (debounced w).
Proof.
  intros H. unfold debounced. destruct (_ =? _)%string; [|assumption].
  apply init_tracks, H.
Qed.

Lemma step_tracks (w : World) (ev : Event) :
  page_tracks_requests w -> page_tracks_requests (step w ev).
Proof.
  intros H. destruct ev as [stored|q|v| |i s|dt| ]; cbn [step].
  - unfold onMount, flush. apply react_viewOption_tracks, react_query_tracks, init_tracks.
    apply H.
  - unfold flush. apply react_viewOption_tracks, react_query_tracks. exact H.
  - unfold flush. apply react_viewOption_tracks, react_query_tracks. exact H.
  - destruct (_ && _); [|assumption]. unfold loadMoreItems.
    destruct (_ || _); [assumption|]. destruct (_ || _); [assumption|].
    destruct H as (Hp & _ & Hf). apply call_tracks; simpl; [lia | assumption].
  - unfold getItemsPage_settle. destruct (nth_error _ _); [|assumption].
    pose proof (resume_page (caught s) (paging w)) as Hpg.
    destruct (getItemsPage_resume (caught s) (paging w)) as [p c]. simpl in Hpg.
    unfold page_tracks_requests. simpl. rewrite Hpg. exact H.
  - destruct (Timers.elapse dt (timers w)) as [fired e].
    assert (H0 : page_tracks_requests (set_timers e w)) by exact H.
    revert H0. generalize (set_timers e w). clear.
    induction fired as [|u fired IH]; intros w0 H0; [assumption|].
    simpl. apply IH, debounced_tracks, H0.
  - unfold onDestroy. destruct (Timers.cancel _). exact H.
Qed.

(** X7.  Whatever has happened to the component, the page cursor is at least
    1 and equals the page of the request sent last, and every request sent
    asks for a page of at least 1. *)
Theorem page_cursor_is_last_requested_page (evs : list Event) :
  let w := run evs initial in
  1 <= page (paging w)
  /\ List.last (map rq_page (issued w)) 1 = page (paging w)
  /\ Forall (fun rq => 1 <= rq_page rq) (issued w).
Proof.
  intros w. subst w.
  assert (H : forall w0, page_tracks_requests w0 -> page_tracks_requests (run evs w0)).
  { induction evs as [|ev evs IH]; intros w0 H0; [assumption|].
    apply IH, step_tracks, H0. }
  apply H. repeat split; [simpl; lia | constructor].
Qed.

(** ** Teardown and typing, for every history *)

(** X8.  After [onDestroy], whatever happened before and however much time
    passes afterwards, no timer is pending and no request is sent. *)
Theorem nothing_fires_after_onDestroy (evs : list Event) (dts : list Z) :
  let w := run (evs ++ Destroy :: map Elapse dts) initial in
  Timers.pending (timers w) = []
  /\ issued w = issued (run evs initial).
Proof.
  intros w. subst w. unfold run. rewrite fold_left_app. cbn [fold_left].
  fold (run evs initial).
  assert (H0 : Timers.pending (timers (step (run evs initial) Destroy)) = []
               /\ issued (step (run evs initial) Destroy) = issued (run evs initial)).
  { cbn [step]. unfold onDestroy.
    pose proof (cancel_clears _ _ (reachable_owned evs)) as Hc.
    destruct (Timers.cancel _) as [h e]. split; [exact Hc | reflexivity]. }
  revert H0. generalize (step (run evs initial) Destroy).
  induction dts as [|dt dts IH]; intros w0 [Hp Hi]; [now split|].
  cbn [map fold_left].
  destruct (elapse_idle w0 dt Hp) as (Hp' & Hi' & _).
  apply IH. split; [assumption | congruence].
Qed.

(** X9.  In the mounted component with no timer pending, a burst of
    keystrokes, each changing the text and each within 500 ms of the previous
    one, sends no request while it lasts and exactly one request once 500 ms
    have passed: for page 1 of the text typed last, under the current
    view. *)
Theorem debounced_typing_sends_one_request
  (evs : list Event) (q0 : string) (keys : list (Z * string)) (wait : Z) :
  let w := run evs initial in
  loaded (search w) = true ->
  Timers.pending (timers w) = [] ->
  changing (query (search w)) ((0, q0) :: keys) ->
  Forall (fun k => 0 <= fst k < 500) keys ->
  500 <= wait ->
  let w1 := run (Input q0 :: typing keys) w in
  issued w1 = issued w
  /\ issued (step w1 (Elapse wait))
     = issued w ++ [ {| rq_query := List.last (map snd keys) q0;
                        rq_viewOption := viewOption (search w);
                        rq_page := 1;
                        rq_epoch := S (epoch w) |} ].
Proof.
  intros w L Hidle Hch Hgaps Hwait.
  destruct (reachable_in_sync evs L) as (Hq & Hlv & Hi).
  now apply typing_sends_one_request.
Qed.

Lemma debounced_typing_sends_one_request_witness :
  let w := run [Mount None] initial in
  let w1 := run [Input "a"; Elapse 100; Input "ab"; Elapse 100; Input "abc"] w in
  issued w1 = issued w
  /\ issued (step w1 (Elapse 500))
     = issued w ++ [ {| rq_query := "abc"; rq_viewOption := "";
                        rq_page := 1; rq_epoch := 2 |} ].
Proof.
  apply (debounced_typing_sends_one_request [Mount None] "a"
           [(100, "ab"%string); (100, "abc"%string)] 500).
  - reflexivity.
  - reflexivity.
  - simpl. repeat split; discriminate.
  - repeat constructor; simpl; lia.
  - lia.
Defined.

End KnowledgeInvariants.

(* ------------------------------------------------------------------------- *)
(** * Further properties of Chats.svelte *)

From Stdlib Require Import Sorted.

Module ChatsMore.
Import JS JSFacts Chats ChatsFacts ChatsEditing.

(** ** The tag batch of [saveTag] *)

(** X10.  The batch of [saveTag] is clean: no tag is both added and removed,
    no tag is added twice, every tag that is added is non-empty and has no
    white space at either end, and every tag that is removed is a stored
    one. *)
Theorem tag_batch_is_clean (currentTags selected : list string) :
  (forall t, In t (tagsToAdd currentTags selected) ->
             ~ In t (tagsToRemove currentTags selected))
  /\ List.NoDup (tagsToAdd currentTags selected)
  /\ (forall t, In t (tagsToAdd currentTags selected) ->
                t <> EmptyString /\ starts_white t = false /\ ends_white t = false)
  /\ (forall t, In t (tagsToRemove currentTags selected) -> In t currentTags).
Proof.
  split; [|split; [|split]].
  - intros t Ha Hr. apply tagsToAdd_In in Ha. apply tagsToRemove_In in Hr. tauto.
  - unfold tagsToAdd. apply List.NoDup_filter, from_set_NoDup.
  - intros t Ha. apply tagsToAdd_In in Ha as [Hn _].
    apply newTags_In in Hn as [Hne (u & _ & <-)].
    split; [assumption|]. apply trim_strips_both_ends.
  - intros t Hr. now apply tagsToRemove_In in Hr.
Qed.

(** X11.  Carrying out the batch reaches the selection: the stored tags
    without the removed ones, together with the added ones, are exactly the
    normalised selection. *)
Theorem tag_batch_reaches_selection (currentTags selected : list string) (t : string) :
  (In t currentTags /\ ~ In t (tagsToRemove currentTags selected))
  \/ In t (tagsToAdd currentTags selected)
  <-> In t (newTags selected).
Proof.
  rewrite tagsToRemove_In, tagsToAdd_In.
  destruct (in_dec string_dec t currentTags) as [Hc|Hc];
    destruct (in_dec string_dec t (newTags selected)) as [Hn|Hn]; tauto.
Qed.

Lemma filter_all {A} (f : A -> bool) (l : list A) :
  (forall x, In x l -> f x = true) -> List.filter f l = l.
Proof.
  induction l as [|x l IH]; intros H; [reflexivity|]. simpl.
  rewrite (H x (or_introl eq_refl)). f_equal. apply IH. intros y Hy. apply H. now right.
Qed.

(** X12.  A selection without any tag in it (empty, or blank entries only)
    adds nothing and removes every stored tag, in their stored order. *)
Theorem blank_selection_removes_all (currentTags selected : list string) :
  Forall (fun u => trim u = EmptyString) selected ->
  tagsToAdd currentTags selected = []
  /\ tagsToRemove currentTags selected = currentTags.
Proof.
  intros Hb. rewrite List.Forall_forall in Hb.
  assert (Hnone : forall t, ~ In t (newTags selected)).
  { intros t Ht. apply newTags_In in Ht as [Hne (u & Hu & E)].
    apply Hne. rewrite <- E. now apply Hb. }
  split.
  - apply nothing_In. intros t Ht. apply tagsToAdd_In in Ht as [Ht _].
    now apply (Hnone t).
  - unfold tagsToRemove. apply filter_all. intros t _.
    apply array_includes_not_In, Hnone.
Qed.

Lemma blank_selection_removes_all_witness :
  (tagsToAdd ["a"; "b"] [" "; ""] = []
   /\ tagsToRemove ["a"; "b"] [" "; ""] = ["a"; "b"])%string.
Proof.
  apply (blank_selection_removes_all ["a"; "b"]%string [" "; ""]%string).
  repeat constructor.
Defined.

(** ** The tag buttons *)


(** ** What [saveTag] leaves alone *)

Section Collation.
Variable localeCompare : string -> string -> Z.

Lemma assign_tags_frame (r : positive) (updated : list string) (h : Heap) :
  arrays (assign_tags r updated h) = arrays h
  /\ (forall x, x <> r -> objects (assign_tags r updated h) !! x = objects h !! x)
  /\ (forall x, id (deref (assign_tags r updated h) x) = id (deref h x)
                /\ title (deref (assign_tags r updated h) x) = title (deref h x)
                /\ updated_at (deref (assign_tags r updated h) x) = updated_at (deref h x)
                /\ models (deref (assign_tags r updated h) x) = models (deref h x)).
Proof.
  split; [reflexivity|]. split.
  - intros x Hx. simpl. now rewrite lookup_insert_ne.
  - intros x. unfold deref at 1 3 5 7. simpl.
    destruct (decide (r = x)) as [->|Hx].
    + rewrite lookup_insert_eq. simpl. repeat split.
    + rewrite lookup_insert_ne by assumption. repeat split.
Qed.

(** X14.  Whatever the server answers, [saveTag] leaves the collection
    alone: [allChatsData] names the same array with the same chats in the
    same order, no chat but the edited one changes at all, and of the edited
    chat only the tags can change. *)
Theorem saveTag_touches_only_the_tags
  (api : Api) (chatId : string) (w : World) (l : list positive) :
  arrays (heap w) !! allChatsData (vars w) = Some l ->
  let w' := fst (fst (saveTag localeCompare api chatId w)) in
  allChatsData (vars w') = allChatsData (vars w)
  /\ arrays (heap w') !! allChatsData (vars w') = Some l
  /\ (forall x, List.find (fun r => (id (deref (heap w) r) =? chatId)%string) l <> Some x ->
                objects (heap w') !! x = objects (heap w) !! x)
  /\ (forall x, id (deref (heap w') x) = id (deref (heap w) x)
                /\ title (deref (heap w') x) = title (deref (heap w) x)
                /\ updated_at (deref (heap w') x) = updated_at (deref (heap w) x)
                /\ models (deref (heap w') x) = models (deref (heap w) x)).
Proof.
  intros Hl w'. subst w'. unfold saveTag.
  replace (read (heap w) (allChatsData (vars w))) with l
    by (unfold read; now rewrite Hl).
  destruct (List.find _ l) as [r|] eqn:Ef;
    [|cbn [fst]; repeat split; (assumption || reflexivity)].
  destruct (forallb _ _); [|cbn [fst]; repeat split; (assumption || reflexivity)].
  destruct (tags_reply api) as [reply|];
    [|cbn [fst]; repeat split; (assumption || reflexivity)].
  destruct (assign_tags_frame r (normalizeTags reply) (heap w)) as (Ha & Ho & Hd).
  destruct (all_tags_reply api) as [every|]; cbn [fst].
  - match goal with
    | |- context [applyFiltersAndSort localeCompare ?x] =>
        destruct (applyFiltersAndSort_effect localeCompare x)
          as (Hv & Hobj & _ & _ & Hk & _);
        set (w2 := applyFiltersAndSort localeCompare x) in *
    end.
    cbn [vars heap set_vars set_heap allChatsData] in *.
    assert (Hall : allChatsData (vars w2) = allChatsData (vars w)) by now rewrite Hv.
    split; [exact Hall|]. split; [|split].
    + rewrite Hall. apply Hk. now rewrite Ha.
    + intros x Hx. rewrite Hobj. apply Ho. intros ->. now apply Hx.
    + intros x. unfold deref at 1 3 5 7. rewrite Hobj. apply Hd.
  - cbn [vars heap set_heap]. split; [reflexivity|]. split; [now rewrite Ha|]. split.
    + intros x Hx. apply Ho. intros ->. now apply Hx.
    + exact Hd.
Qed.

(** X15.  Opening the tag editor on a chat and saving at once sends no add
    and no remove when the stored tags are non-empty and trimmed: the tags
    are only read back. *)
Theorem unchanged_tags_send_no_update (api : Api) (w : World) (r : positive) :
  List.find (fun x => (id (deref (heap w) x) =? id (deref (heap w) r))%string)
    (read (heap w) (allChatsData (vars w))) = Some r ->
  Forall (fun t => t <> EmptyString /\ trim t = t) (default [] (tags (deref (heap w) r))) ->
  snd (fst (saveTag localeCompare api (id (deref (heap w) r)) (startEditTag r w)))
  = match tags_reply api with
    | Rejects => [GetTags (id (deref (heap w) r))]
    | Fulfils _ => [GetTags (id (deref (heap w) r)); GetAllTags]
    end.
Proof.
  intros Hfind Hnorm. rewrite List.Forall_forall in Hnorm.
  set (cur := default [] (tags (deref (heap w) r))) in *.
  assert (Ha : tagsToAdd cur cur = []).
  { apply nothing_In. intros t. rewrite tagsToAdd_In, newTags_In.
    intros [[_ (u & Hu & E)] Hnot]. apply Hnot.
    destruct (Hnorm u Hu) as [_ Eu]. congruence. }
  assert (Hr : tagsToRemove cur cur = []).
  { apply nothing_In. intros t. rewrite tagsToRemove_In, newTags_In.
    intros [Ht Hnot]. apply Hnot. destruct (Hnorm t Ht) as [Hne Et].
    split; [assumption|]. now exists t. }
  unfold saveTag, startEditTag. cbn [vars heap set_vars allChatsData selectedTagsForChat].
  rewrite Hfind. fold cur. rewrite Ha, Hr. simpl.
  destruct (tags_reply api); [destruct (all_tags_reply api)|]; reflexivity.
Qed.

(** ** The view *)

Definition view_after (w : World) : list positive :=
  read (heap (applyFiltersAndSort localeCompare w))
    (filteredChats (vars (applyFiltersAndSort localeCompare w))).

Definition collection (w : World) : list positive :=
  read (heap w) (allChatsData (vars w)).

Lemma view_after_sort (w : World) :
  view_after w = sort (by_sort_key localeCompare w) (kept w).
Proof.
  unfold view_after, read.
  destruct (applyFiltersAndSort_effect localeCompare w) as (_ & _ & _ & -> & _).
  reflexivity.
Qed.

(** X16.  With a blank search text (empty, or white space only) the view
    holds every chat of the collection, each as often as the collection holds
    it: the view is a rearrangement of the collection. *)
Theorem blank_query_shows_every_chat (w : World) :
  trim (query (vars w)) = EmptyString ->
  Permutation (view_after w) (collection w).
Proof.
  intros Hb. rewrite view_after_sort. unfold kept. rewrite Hb. simpl.
  apply sort_perm.
Qed.

Lemma count_occ_filter_le (f : positive -> bool) (l : list positive) (r : positive) :
  (count_occ Pos.eq_dec (List.filter f l) r <= count_occ Pos.eq_dec l r)%nat.
Proof.
  induction l as [|x l IH]; simpl; [lia|].
  destruct (f x); simpl; destruct (Pos.eq_dec x r); lia.
Qed.

(** X17.  For every search text, sort key and sort order, the view shows no
    chat more often than the collection holds it, so a chat held once is
    never shown twice and the number shown never exceeds the number held. *)
Theorem view_never_repeats_a_chat (w : World) :
  (forall r, (count_occ Pos.eq_dec (view_after w) r
              <= count_occ Pos.eq_dec (collection w) r)%nat)
  /\ (length (view_after w) <= length (collection w))%nat.
Proof.
  rewrite view_after_sort.
  pose proof (sort_perm (by_sort_key localeCompare w) (kept w)) as Hp.
  split.
  - intros r. rewrite (Permutation_count_occ Pos.eq_dec) in Hp. rewrite Hp.
    unfold kept, collection. destruct (truthy _); [apply count_occ_filter_le | lia].
  - rewrite (Permutation_length Hp). unfold kept, collection.
    destruct (truthy _); [apply List.filter_length_le | lia].
Qed.

(** ** Sorting *)

Section Sorting.
Context {A : Type} (cmp : A -> A -> Z).
Hypothesis cmp_total : forall x y, cmp x y <= 0 \/ cmp y x <= 0.
Hypothesis cmp_trans : forall x y z, cmp x y <= 0 -> cmp y z <= 0 -> cmp x z <= 0.

Lemma insert_sorted_sorted (x : A) (l : list A) :
  StronglySorted (fun a b => cmp a b <= 0) l ->
  StronglySorted (fun a b => cmp a b <= 0) (insert_sorted cmp x l).
Proof.
  induction l as [|y l IH]; intros Hs; simpl.
  - constructor; constructor.
  - inversion Hs as [|? ? Hl Hy]; subst. rewrite List.Forall_forall in Hy.
    destruct (cmp x y <=? 0) eqn:E.
    + apply Z.leb_le in E. constructor; [assumption|].
      constructor; [assumption|]. apply List.Forall_forall. intros z Hz.
      eapply cmp_trans; [exact E | now apply Hy].
    + apply Z.leb_gt in E. constructor; [now apply IH|].
      apply List.Forall_forall. intros z Hz.
      apply (Permutation_in _ (insert_sorted_perm cmp x l)) in Hz.
      destruct Hz as [<-|Hz]; [|now apply Hy].
      destruct (cmp_total x y); [lia | assumption].
Qed.

Lemma sort_sorted (l : list A) :
  StronglySorted (fun a b => cmp a b <= 0) (sort cmp l).
Proof.
  induction l as [|x l IH]; simpl; [constructor|]. now apply insert_sorted_sorted.
Qed.
End Sorting.

(** Elements of one class that compare as equal keep their order. *)
Lemma sort_stable {A : Type} (cmp : A -> A -> Z) (f : A -> bool) (l : list A) :
  (forall x y, f x = true -> f y = true -> cmp x y <= 0) ->
  List.filter f (sort cmp l) = List.filter f l.
Proof.
  intros Hf.
  assert (Hi : forall x l0, List.filter f (insert_sorted cmp x l0)
                            = List.filter f (x :: l0)).
  { intros x l0. induction l0 as [|y l0 IH]; [reflexivity|]. simpl.
    destruct (cmp x y <=? 0) eqn:E; [reflexivity|]. apply Z.leb_gt in E.
    simpl. rewrite IH. simpl.
    destruct (f x) eqn:Fx; [|reflexivity].
    destruct (f y) eqn:Fy; [|reflexivity].
    specialize (Hf x y Fx Fy). lia. }
  induction l as [|x l IH]; [reflexivity|]. simpl. rewrite Hi. simpl.
  now rewrite IH.
Qed.

(** The time stamp the comparator reads: [chat.updated_at || 0]. *)
Definition stamp (w : World) (r : positive) : Z :=
  default 0 (updated_at (deref (heap w) r)).

Lemma by_sort_key_date (w : World) (x y : positive) :
  sortBy (vars w) = "date"%string ->
  by_sort_key localeCompare w x y
  = if (sortOrder (vars w) =? "asc")%string
    then stamp w x - stamp w y else - (stamp w x - stamp w y).
Proof.
  intros Hk. unfold by_sort_key, comparator, comparison. rewrite Hk. reflexivity.
Qed.

(** X18.  Sorted by date, the view is in order of the time stamps: ascending
    when the sort order is "asc", descending otherwise. *)
Theorem date_sort_orders_by_time_stamp (w : World) :
  sortBy (vars w) = "date"%string ->
  StronglySorted
    (fun x y => if (sortOrder (vars w) =? "asc")%string
                then stamp w x <= stamp w y else stamp w y <= stamp w x)
    (view_after w).
Proof.
  intros Hk. rewrite view_after_sort.
  pose proof (sort_sorted (by_sort_key localeCompare w)) as Hs.
  assert (Hrel : forall x y, by_sort_key localeCompare w x y <= 0
                             <-> (if (sortOrder (vars w) =? "asc")%string
                                  then stamp w x <= stamp w y
                                  else stamp w y <= stamp w x)).
  { intros x y. rewrite (by_sort_key_date w x y Hk).
    destruct (sortOrder (vars w) =? "asc")%string; lia. }
  assert (Ht : StronglySorted (fun x y => by_sort_key localeCompare w x y <= 0)
                 (sort (by_sort_key localeCompare w) (kept w))).
  { apply Hs.
    - intros x y. rewrite !Hrel. destruct (sortOrder (vars w) =? "asc")%string; lia.
    - intros x y z. rewrite !Hrel. destruct (sortOrder (vars w) =? "asc")%string; lia. }
  induction Ht as [|x l Hl IH Hx]; constructor; [assumption|].
  rewrite List.Forall_forall in *. intros y Hy. now apply Hrel, Hx.
Qed.

(** X19.  The sort by date is stable: the chats that carry the same time
    stamp are shown in the order in which [allChatsData] holds them, in
    either sort order. *)
Theorem date_sort_keeps_order_of_equal_stamps (w : World) (k : Z) :
  sortBy (vars w) = "date"%string ->
  List.filter (fun r => stamp w r =? k) (view_after w)
  = List.filter (fun r => stamp w r =? k) (kept w).
Proof.
  intros Hk. rewrite view_after_sort. apply sort_stable.
  intros x y Hx Hy. apply Z.eqb_eq in Hx, Hy.
  rewrite (by_sort_key_date w x y Hk), Hx, Hy.
  destruct (sortOrder (vars w) =? "asc")%string; lia.
Qed.

Lemma applyFiltersAndSort_counts (w : World) :
  recomputed (applyFiltersAndSort localeCompare w) = S (recomputed w)
  /\ destroyed (applyFiltersAndSort localeCompare w) = destroyed w.
Proof. unfold applyFiltersAndSort. destruct (truthy _); split; reflexivity. Qed.

(** ** Editing a title *)

(** X20.  [saveTitle] refuses a blank title without calling the server and
    without changing anything.  Otherwise it calls [updateChatById] exactly
    once, with the title trimmed: non-empty and without white space at either
    end.  When that call fails, nothing changes and the editor stays open. *)
Theorem saveTitle_sends_the_trimmed_title
  (updated : bool) (chatId : string) (e : TitleEdit) (w : World) :
  match trim (editingTitle e) with
  | EmptyString =>
      saveTitle localeCompare updated chatId e w
      = (e, w, [], [ToastError "Title cannot be empty"])
  | String c rest =>
      snd (fst (saveTitle localeCompare updated chatId e w))
      = [UpdateChat chatId (String c rest)]
      /\ starts_white (String c rest) = false
      /\ ends_white (String c rest) = false
      /\ (if updated then True
          else saveTitle localeCompare updated chatId e w
               = (e, w, [UpdateChat chatId (String c rest)],
                  [ToastError "Failed to update title"]))
  end.
Proof.
  destruct (trim_strips_both_ends (editingTitle e)) as (_ & Hs & He).
  unfold saveTitle. destruct (trim (editingTitle e)) as [|c rest] eqn:Et.
  - reflexivity.
  - simpl. destruct updated; repeat split; assumption.
Qed.

Lemma assign_title_frame (r : positive) (t : string) (h : Heap) :
  arrays (assign_title r t h) = arrays h
  /\ (forall x, x <> r -> objects (assign_title r t h) !! x = objects h !! x)
  /\ title (deref (assign_title r t h) r) = Some t
  /\ (forall x, id (deref (assign_title r t h) x) = id (deref h x)
                /\ tags (deref (assign_title r t h) x) = tags (deref h x)
                /\ updated_at (deref (assign_title r t h) x) = updated_at (deref h x)
                /\ models (deref (assign_title r t h) x) = models (deref h x)).
Proof.
  split; [reflexivity|]. split; [|split].
  - intros x Hx. simpl. now rewrite lookup_insert_ne.
  - unfold deref at 1. simpl. now rewrite lookup_insert_eq.
  - intros x. unfold deref at 1 3 5 7. simpl.
    destruct (decide (r = x)) as [->|Hx].
    + rewrite lookup_insert_eq. simpl. repeat split.
    + rewrite lookup_insert_ne by assumption. repeat split.
Qed.

(** X21.  When [updateChatById] succeeds for a title that is not blank, the
    first chat of the collection with the given id gets the trimmed title and
    nothing else in the collection changes: the array is the same, the other
    chats are untouched (also when no chat has the id), and of the renamed
    chat the id, the tags, the models and the time stamp stay.  The editor is
    closed and the view is computed again. *)
Theorem saveTitle_renames_one_chat
  (chatId : string) (e : TitleEdit) (w : World) (l : list positive) :
  trim (editingTitle e) <> EmptyString ->
  arrays (heap w) !! allChatsData (vars w) = Some l ->
  let e' := fst (fst (fst (saveTitle localeCompare true chatId e w))) in
  let w' := snd (fst (fst (saveTitle localeCompare true chatId e w))) in
  let found := List.find (fun r => (id (deref (heap w) r) =? chatId)%string) l in
  e' = cancelEditTitle
  /\ allChatsData (vars w') = allChatsData (vars w)
  /\ arrays (heap w') !! allChatsData (vars w') = Some l
  /\ (forall x, found <> Some x -> objects (heap w') !! x = objects (heap w) !! x)
  /\ (forall x, found = Some x ->
                title (deref (heap w') x) = Some (trim (editingTitle e)))
  /\ (forall x, id (deref (heap w') x) = id (deref (heap w) x)
                /\ tags (deref (heap w') x) = tags (deref (heap w) x)
                /\ updated_at (deref (heap w') x) = updated_at (deref (heap w) x)
                /\ models (deref (heap w') x) = models (deref (heap w) x))
  /\ recomputed w' = S (recomputed w).
Proof.
  intros Hne Hl e' w' found. subst e' w'. unfold saveTitle.
  assert (Eb : (trim (editingTitle e) =? "")%string = false)
    by now apply String.eqb_neq.
  rewrite Eb. cbn [fst snd].
  replace (read (heap w) (allChatsData (vars w))) with l
    by (unfold read; now rewrite Hl).
  fold found.
  set (h1 := match found with
             | Some r => assign_title r (trim (editingTitle e)) (heap w)
             | None => heap w
             end).
  assert (Hh1 : arrays h1 = arrays (heap w)
                /\ (forall x, found <> Some x -> objects h1 !! x = objects (heap w) !! x)
                /\ (forall x, found = Some x ->
                              title (deref h1 x) = Some (trim (editingTitle e)))
                /\ (forall x, id (deref h1 x) = id (deref (heap w) x)
                              /\ tags (deref h1 x) = tags (deref (heap w) x)
                              /\ updated_at (deref h1 x) = updated_at (deref (heap w) x)
                              /\ models (deref h1 x) = models (deref (heap w) x))).
  { subst h1. destruct found as [r|].
    - destruct (assign_title_frame r (trim (editingTitle e)) (heap w))
        as (Ha & Ho & Ht & Hd).
      split; [assumption|]. split; [|split; [|assumption]].
      + intros x Hx. apply Ho. intros ->. now apply Hx.
      + intros x Hx. injection Hx as <-. exact Ht.
    - repeat split. intros x Hx. discriminate. }
  destruct Hh1 as (Ha & Ho & Ht & Hd).
  destruct (applyFiltersAndSort_effect localeCompare (set_heap h1 w))
    as (Hv & Hobj & _ & _ & Hk & _).
  set (w2 := applyFiltersAndSort localeCompare (set_heap h1 w)) in *.
  cbn [vars heap set_heap] in Hv, Hobj, Hk.
  assert (Hall : allChatsData (vars w2) = allChatsData (vars w)) by now rewrite Hv.
  split; [reflexivity|]. split; [exact Hall|]. split; [|split; [|split; [|split]]].
  - rewrite Hall. apply Hk. now rewrite Ha.
  - intros x Hx. rewrite Hobj. now apply Ho.
  - intros x Hx. unfold deref. rewrite Hobj. now apply Ht.
  - intros x. unfold deref at 1 3 5 7. rewrite Hobj. apply Hd.
  - subst w2. now rewrite (proj1 (applyFiltersAndSort_counts (set_heap h1 w))).
Qed.

(** ** Loading the chats *)

Lemma alloc_objects_spec (cs : list ChatData) (h : Heap) :
  map (deref (snd (alloc_objects cs h))) (fst (alloc_objects cs h)) = cs
  /\ arrays (snd (alloc_objects cs h)) = arrays h
  /\ (forall x c, objects h !! x = Some c ->
                  objects (snd (alloc_objects cs h)) !! x = Some c).
Proof.
  revert h. induction cs as [|c cs IH]; intros h; [repeat split; trivial|].
  simpl. set (r := fresh (dom (objects h))).
  set (h1 := {| objects := <[r := c]> (objects h); arrays := arrays h |}).
  destruct (IH h1) as (Hm & Ha & Hk).
  destruct (alloc_objects cs h1) as [rs h2]. simpl in *.
  assert (Hr : objects h !! r = None) by apply not_elem_of_dom, is_fresh.
  split; [|split].
  - f_equal; [|assumption]. unfold deref.
    rewrite (Hk r c); [reflexivity|]. subst h1. simpl. apply lookup_insert_eq.
  - assumption.
  - intros x c0 Hx. apply Hk. subst h1. simpl. rewrite lookup_insert_ne; [assumption|].
    intros <-. congruence.
Qed.

Lemma normalizeTags_no_empty (reply : option (list TagItem)) :
  ~ In EmptyString (normalizeTags reply).
Proof.
  destruct reply as [l|]; simpl; [|tauto].
  rewrite filter_In. intros [_ H]. discriminate.
Qed.

Lemma enrich_all_spec (chats : list ChatData)
  (details : nat -> Outcome (option FullChat * option (list TagItem))) (i : nat) :
  map id (enrich_all i chats details) = map id chats
  /\ map title (enrich_all i chats details) = map title chats
  /\ Forall (fun c => exists m t u,
                 models c = Some m /\ tags c = Some t /\ updated_at c = Some u
                 /\ ~ In EmptyString t)
       (enrich_all i chats details).
Proof.
  revert i. induction chats as [|c chats IH]; intros i; simpl.
  - repeat split. constructor.
  - destruct (IH (S i)) as (Hi & Ht & Hf).
    split; [|split].
    + f_equal; [|assumption]. now destruct (details i) as [[f t]|].
    + f_equal; [|assumption]. now destruct (details i) as [[f t]|].
    + constructor; [|assumption].
      destruct (details i) as [[f t]|]; simpl; do 3 eexists;
        repeat split; try reflexivity; [apply normalizeTags_no_empty | tauto].
Qed.

Lemma init_collection
  (chatList : option (list ChatData)) (tagsList : option (list TagItem))
  (details : nat -> Outcome (option FullChat * option (list TagItem))) (w : World) :
  let w' := fst (init localeCompare (Fulfils (chatList, tagsList)) details w) in
  map (deref (heap w')) (read (heap w') (allChatsData (vars w')))
  = enrich_all 0 (default [] chatList) details
  /\ allTags (vars w') = default [] tagsList.
Proof.
  intros w'. subst w'. unfold init. cbn [fst]. unfold chats_loaded.
  set (cs := enrich_all 0 (default [] chatList) details).
  set (w1 := set_vars (set_allTags (default [] tagsList) (vars w)) w).
  destruct (alloc_objects_spec cs (heap w1)) as (Hm & Ha & _).
  destruct (alloc_objects cs (heap w1)) as [rs h1]. simpl in Hm, Ha.
  unfold alloc_array.
  match goal with
  | |- context [applyFiltersAndSort localeCompare ?x] =>
      destruct (applyFiltersAndSort_effect localeCompare x)
        as (Hv & Hobj & _ & _ & Hk & _);
      set (w2 := applyFiltersAndSort localeCompare x) in *
  end.
  cbn [vars heap set_vars set_heap] in Hv, Hobj, Hk.
  split.
  - assert (Hall : allChatsData (vars w2) = fresh (dom (arrays h1))) by now rewrite Hv.
    unfold read. rewrite Hall.
    rewrite (Hk (fresh (dom (arrays h1))) rs) by (simpl; apply lookup_insert_eq).
    simpl. rewrite <- Hm. apply map_ext. intros x. unfold deref. now rewrite Hobj.
  - now rewrite Hv.
Qed.

(** X22.  When the two list requests succeed, [init] keeps every chat of the
    list, in the order of the list and with its id and title, whatever the
    requests for the details of the single chats answer; every chat then has
    a list of models, a time stamp and a list of tags, none of them the empty
    tag.  [allTags] is the tag list of the server, or empty without one. *)
Theorem init_keeps_every_chat
  (chatList : option (list ChatData)) (tagsList : option (list TagItem))
  (details : nat -> Outcome (option FullChat * option (list TagItem))) (w : World) :
  let w' := fst (init localeCompare (Fulfils (chatList, tagsList)) details w) in
  let held := map (deref (heap w')) (read (heap w') (allChatsData (vars w'))) in
  map id held = map id (default [] chatList)
  /\ map title held = map title (default [] chatList)
  /\ Forall (fun c => exists m t u,
                 models c = Some m /\ tags c = Some t /\ updated_at c = Some u
                 /\ ~ In EmptyString t) held
  /\ allTags (vars w') = default [] tagsList.
Proof.
  intros w' held. subst w' held.
  destruct (init_collection chatList tagsList details w) as [-> Ht].
  destruct (enrich_all_spec (default [] chatList) details 0) as (H1 & H2 & H3).
  repeat split; assumption.
Qed.

Lemma enrich_all_nth (chats : list ChatData)
  (details : nat -> Outcome (option FullChat * option (list TagItem))) (i k : nat) :
  nth_error (enrich_all i chats details) k
  = option_map (fun c => enrich c (details (i + k)%nat)) (nth_error chats k).
Proof.
  revert i k. induction chats as [|c chats IH]; intros i k; simpl.
  - now destruct k.
  - destruct k as [|k]; simpl; [now rewrite Nat.add_0_r|].
    rewrite IH. now rewrite Nat.add_succ_r.
Qed.

(** X23.  A chat whose detail requests fail is not lost: [init] keeps it at
    its place with its id and title, with no models and no tags, and with its
    own time stamp (0 without one). *)
Theorem init_survives_failed_details
  (chatList : list ChatData) (tagsList : option (list TagItem))
  (details : nat -> Outcome (option FullChat * option (list TagItem)))
  (w : World) (k : nat) (c : ChatData) :
  nth_error chatList k = Some c ->
  details k = Rejects ->
  let w' := fst (init localeCompare (Fulfils (Some chatList, tagsList)) details w) in
  nth_error (map (deref (heap w')) (read (heap w') (allChatsData (vars w')))) k
  = Some {| id := id c; title := title c;
            updated_at := Some (or_number (updated_at c) 0);
            models := Some []; tags := Some [] |}.
Proof.
  intros Hk Hd w'. subst w'.
  destruct (init_collection (Some chatList) tagsList details w) as [-> _].
  simpl. rewrite enrich_all_nth, Hk. simpl. now rewrite Hd.
Qed.

(** ** The debounce timer of the search box *)

(** Every pending timer is the one [searchDebounceTimer] names. *)
Definition timer_named (w : World) : Prop :=
  Timers.pending (timers w) = []
  \/ exists h d, searchDebounceTimer (vars w) = Some h
       /\ Timers.pending (timers w)
          = [ {| Timers.handle := h; Timers.deadline := d; Timers.callback := tt |} ].

Lemma timer_named_frame (w w' : World) :
  searchDebounceTimer (vars w') = searchDebounceTimer (vars w) ->
  timers w' = timers w -> timer_named w -> timer_named w'.
Proof. unfold timer_named. intros -> ->. trivial. Qed.

Lemma applyFiltersAndSort_named (w : World) :
  timer_named w -> timer_named (applyFiltersAndSort localeCompare w).
Proof.
  destruct (applyFiltersAndSort_effect localeCompare w) as (Hv & _ & _ & _ & _ & Ht).
  apply timer_named_frame; [now rewrite Hv | assumption].
Qed.

Lemma react_query_named (w : World) : timer_named w -> timer_named (react_query w).
Proof.
  intros H. unfold react_query. destruct (loaded (vars w)); [|assumption].
  right. unfold Timers.debounceSearch. simpl.
  destruct H as [H|(h & d & Hh & Hp)].
  - destruct (searchDebounceTimer (vars w)); simpl; rewrite H; simpl;
      do 2 eexists; split; reflexivity.
  - rewrite Hh. simpl. rewrite Hp. simpl. rewrite Pos.eqb_refl. simpl.
    do 2 eexists; split; reflexivity.
Qed.

Lemma react_sort_named (w : World) :
  timer_named w -> timer_named (react_sort localeCompare w).
Proof.
  intros H. unfold react_sort. destruct (loaded (vars w)); [|assumption].
  now apply applyFiltersAndSort_named.
Qed.

Lemma step_named (w : World) (ev : Event) :
  timer_named w -> timer_named (step localeCompare w ev).
Proof.
  intros H. destruct ev as [ |enriched|q|key order|dt| ]; cbn [step].
  - apply react_sort_named, react_query_named. exact H.
  - unfold chats_loaded. destruct (alloc_objects enriched (heap w)) as [rs h1].
    destruct (alloc_array rs h1) as [a h2]. apply applyFiltersAndSort_named. exact H.
  - destruct (q =? query (vars w))%string; [assumption|].
    apply react_query_named. exact H.
  - destruct (_ && _); [assumption|]. apply react_sort_named. exact H.
  - destruct (Timers.elapse dt (timers w)) as [fired e] eqn:E.
    assert (H0 : timer_named {| vars := vars w; heap := heap w; timers := e;
                                recomputed := recomputed w; destroyed := destroyed w |}).
    { unfold Timers.elapse in E. injection E as _ <-. unfold timer_named. simpl.
      destruct H as [H|(h & d & Hh & Hp)].
      - left. now rewrite H.
      - rewrite Hp. simpl. destruct (negb (Timers.due _ _)).
        + right. now exists h, d.
        + now left. }
    revert H0. generalize {| vars := vars w; heap := heap w; timers := e;
                             recomputed := recomputed w; destroyed := destroyed w |}.
    clear. induction fired as [|u fired IH]; intros w0 H0; [assumption|].
    simpl. apply IH, applyFiltersAndSort_named, H0.
  - exact H.
Qed.

(** X24.  Whatever has happened to the Chats component, at most one debounce
    timer is pending. *)
Theorem chats_at_most_one_timer_pending (evs : list Event) :
  (length (Timers.pending (timers (run localeCompare evs initial))) <= 1)%nat.
Proof.
  assert (H : forall w0, timer_named w0 -> timer_named (run localeCompare evs w0)).
  { induction evs as [|ev evs IH]; intros w0 H0; [assumption|].
    apply IH, step_named, H0. }
  destruct (H initial (or_introl eq_refl)) as [Hp|(h & d & _ & Hp)];
    rewrite Hp; simpl; lia.
Qed.

(** The keystrokes of a burst: each comes with the time since the previous
    one. *)
Definition typing (keys : list (Z * string)) : list Event :=
  flat_map (fun k => [Elapse (fst k); Input (snd k)]) keys.

(** [q] has been typed last and the debounce timer is running; nothing else
    has moved since [w0]. *)
Definition waiting (w0 w : World) (q : string) : Prop :=
  loaded (vars w) = true
  /\ query (vars w) = q
  /\ sortBy (vars w) = sortBy (vars w0)
  /\ sortOrder (vars w) = sortOrder (vars w0)
  /\ allChatsData (vars w) = allChatsData (vars w0)
  /\ heap w = heap w0
  /\ recomputed w = recomputed w0
  /\ TimersFacts.armed 500 tt (searchDebounceTimer (vars w), timers w).

Lemma chats_input_arms (w0 w : World) (q : string) :
  loaded (vars w) = true ->
  q <> query (vars w) ->
  sortBy (vars w) = sortBy (vars w0) ->
  sortOrder (vars w) = sortOrder (vars w0) ->
  allChatsData (vars w) = allChatsData (vars w0) ->
  heap w = heap w0 ->
  recomputed w = recomputed w0 ->
  TimersFacts.armed 500 tt
    (Timers.debounceSearch tt 500 (searchDebounceTimer (vars w), timers w)) ->
  waiting w0 (step localeCompare w (Input q)) q.
Proof.
  intros Hl Hq Hs Ho Ha Hh Hr Harm. cbn [step].
  assert (E : (q =? query (vars w))%string = false) by now apply String.eqb_neq.
  rewrite E. unfold react_query. cbn [vars set_vars set_query loaded searchDebounceTimer timers].
  rewrite Hl.
  destruct (Timers.debounceSearch tt 500 (searchDebounceTimer (vars w), timers w))
    as [h e].
  unfold waiting. cbn. repeat split; assumption.
Qed.

Lemma chats_typing_keeps_waiting (w0 : World) (keys : list (Z * string)) (w : World) (q : string) :
  waiting w0 w q ->
  KnowledgeFacts.changing q keys ->
  Forall (fun k => 0 <= fst k < 500) keys ->
  waiting w0 (run localeCompare (typing keys) w) (List.last (map snd keys) q).
Proof.
  revert w q. induction keys as [|[gap q'] keys IH]; intros w q Hw Hch Hgaps.
  - exact Hw.
  - destruct Hch as [Hne Hch]. simpl in Hne, Hch.
    inversion Hgaps as [|? ? Hgap Hrest]; subst. simpl in Hgap.
    destruct Hw as (Hl & Hq & Hs & Ho & Ha & Hh & Hr & Harm).
    destruct (TimersFacts.elapse_early 500 tt _ _ gap Harm Hgap)
      as (e1 & E1 & Hp & h & Hhd).
    change (map snd ((gap, q') :: keys)) with (q' :: map snd keys).
    rewrite last_cons.
    change (run localeCompare (typing ((gap, q') :: keys)) w)
      with (run localeCompare (typing keys)
              (step localeCompare (step localeCompare w (Elapse gap)) (Input q'))).
    apply IH; [|assumption|assumption].
    assert (Es : step localeCompare w (Elapse gap)
                 = {| vars := vars w; heap := heap w; timers := e1;
                      recomputed := recomputed w; destroyed := destroyed w |}).
    { cbn [step]. now rewrite E1. }
    rewrite Es. apply chats_input_arms; cbn; try assumption; try congruence.
    destruct Harm as (h' & Hh' & Hp'). cbn in Hh', Hp'.
    rewrite Hh'. eapply TimersFacts.debounce_rearm. rewrite Hp. exact Hp'.
Qed.

(** X25.  In the mounted Chats component with no timer pending, a burst of
    keystrokes, each changing the text and each within 500 ms of the previous
    one, does not recompute the view while it lasts; once 500 ms have passed
    the view has been recomputed exactly once, for the text typed last: it
    holds the chats that text keeps, sorted. *)
Theorem debounced_typing_recomputes_once
  (w : World) (q0 : string) (keys : list (Z * string)) (wait : Z) :
  loaded (vars w) = true ->
  Timers.pending (timers w) = [] ->
  KnowledgeFacts.changing (query (vars w)) ((0, q0) :: keys) ->
  Forall (fun k => 0 <= fst k < 500) keys ->
  500 <= wait ->
  let w1 := run localeCompare (Input q0 :: typing keys) w in
  let w2 := step localeCompare w1 (Elapse wait) in
  let typed := List.last (map snd keys) q0 in
  recomputed w1 = recomputed w
  /\ recomputed w2 = S (recomputed w)
  /\ query (vars w2) = typed
  /\ read (heap w2) (filteredChats (vars w2))
     = sort (by_sort_key localeCompare w)
         (kept (set_vars (set_query typed (vars w)) w)).
Proof.
  intros Hl Hidle [Hne Hch] Hgaps Hwait w1 w2 typed. simpl in Hne, Hch.
  assert (H0 : waiting w (step localeCompare w (Input q0)) q0).
  { apply chats_input_arms; try assumption; try reflexivity.
    now apply TimersFacts.debounce_idle. }
  pose proof (chats_typing_keeps_waiting w keys _ q0 H0 Hch Hgaps) as Hw.
  change (run localeCompare (typing keys) (step localeCompare w (Input q0)))
    with w1 in Hw.
  fold typed in Hw. subst w2. clearbody w1 typed.
  destruct Hw as (Hl1 & Hq1 & Hs1 & Ho1 & Ha1 & Hh1 & Hr1 & Harm).
  split; [assumption|].
  destruct (TimersFacts.elapse_late 500 tt _ wait Harm) as (e' & E' & Hp'); [lia|].
  cbn [step]. cbn [snd] in E'. rewrite E'. cbn [fold_left].
  set (x := {| vars := vars w1; heap := heap w1; timers := e';
               recomputed := recomputed w1; destroyed := destroyed w1 |}).
  destruct (applyFiltersAndSort_effect localeCompare x) as (Hv & _ & _ & Hs & _).
  destruct (applyFiltersAndSort_counts x) as [Hc _].
  split; [rewrite Hc; simpl; congruence|].
  split; [rewrite Hv; simpl; assumption|].
  unfold read. rewrite Hs. simpl. f_equal.
  - unfold by_sort_key. simpl. now rewrite Hs1, Ho1, Hh1.
  - unfold kept, read. simpl. now rewrite Hq1, Ha1, Hh1.
Qed.

End Collation.

(** The chat "c1" is loaded with the tag "alpha". *)
Definition one_chat : World :=
  run by_code_units [Mount; Loaded [project_x]] initial.

(** Three chats, two of them with the same time stamp. *)
Definition twin : ChatData :=
  {| id := "c4"; title := Some "Twin"%string; updated_at := Some 10;
     models := None; tags := None |}.

Definition with_twins : World :=
  run by_code_units [Mount; Loaded [project_x; other; twin]] initial.

(** Three chats are loaded and the timer of the mount has fired. *)
Definition settled : World :=
  run by_code_units [Mount; Loaded [project_x; other; notes]; Elapse 500] initial.

Lemma saveTag_touches_only_the_tags_witness :
  arrays (heap (fst (fst (saveTag by_code_units refuses_beta "c1" editing))))
    !! allChatsData (vars (fst (fst (saveTag by_code_units refuses_beta "c1" editing))))
  = Some [1%positive].
Proof.
  refine (proj1 (proj2
    (saveTag_touches_only_the_tags by_code_units refuses_beta "c1" editing [1%positive] _))).
  vm_compute. reflexivity.
Defined.

Lemma unchanged_tags_send_no_update_witness :
  snd (fst (saveTag by_code_units refuses_beta "c1" (startEditTag 1 one_chat)))
  = [GetTags "c1"; GetAllTags].
Proof.
  refine (unchanged_tags_send_no_update by_code_units refuses_beta one_chat 1 _ _).
  - vm_compute. reflexivity.
  - vm_compute. repeat constructor; discriminate.
Defined.

Lemma blank_query_shows_every_chat_witness :
  let w := step by_code_units searching (Input "  ") in
  Permutation (view_after by_code_units w) (collection w).
Proof.
  refine (blank_query_shows_every_chat by_code_units
            (step by_code_units searching (Input "  ")) _).
  vm_compute. reflexivity.
Defined.

Lemma date_sort_orders_by_time_stamp_witness :
  StronglySorted (fun x y => stamp with_twins y <= stamp with_twins x)
    (view_after by_code_units with_twins).
Proof.
  refine (date_sort_orders_by_time_stamp by_code_units with_twins _).
  reflexivity.
Defined.

Lemma date_sort_keeps_order_of_equal_stamps_witness :
  List.filter (fun r => stamp with_twins r =? 10) (view_after by_code_units with_twins)
  = [1; 3]%positive.
Proof.
  refine (eq_trans
            (date_sort_keeps_order_of_equal_stamps by_code_units with_twins 10 _) _).
  - reflexivity.
  - vm_compute. reflexivity.
Defined.

Lemma saveTitle_renames_one_chat_witness :
  let e := {| editingChatId := Some "c1"%string; editingTitle := "  Plan B "%string |} in
  title (deref (heap (snd (fst (fst (saveTitle by_code_units true "c1" e one_chat))))) 1)
  = Some "Plan B"%string.
Proof.
  refine (proj1 (proj2 (proj2 (proj2 (proj2
    (saveTitle_renames_one_chat by_code_units "c1"
       {| editingChatId := Some "c1"%string; editingTitle := "  Plan B "%string |}
       one_chat [1%positive] _ _))))) 1%positive _).
  - vm_compute. discriminate.
  - vm_compute. reflexivity.
  - vm_compute. reflexivity.
Defined.

Lemma init_survives_failed_details_witness :
  let w' := fst (init by_code_units (Fulfils (Some [project_x; other], None))
                   (fun k => if (k =? 1)%nat then Rejects else Fulfils (None, None))
                   initial) in
  nth_error (map (deref (heap w')) (read (heap w') (allChatsData (vars w')))) 1
  = Some {| id := "c2"; title := Some "Other"%string; updated_at := Some 20;
            models := Some []; tags := Some [] |}.
Proof.
  refine (init_survives_failed_details by_code_units [project_x; other] None
            (fun k => if (k =? 1)%nat then Rejects else Fulfils (None, None))
            initial 1 other _ _).
  - reflexivity.
  - reflexivity.
Defined.

Lemma debounced_typing_recomputes_once_witness :
  let w1 := run by_code_units
              [Input "p"; Elapse 100; Input "pr"; Elapse 100; Input "proj"] settled in
  let w2 := step by_code_units w1 (Elapse 500) in
  recomputed w1 = recomputed settled
  /\ recomputed w2 = S (recomputed settled)
  /\ query (vars w2) = "proj"%string
  /\ read (heap w2) (filteredChats (vars w2))
     = sort (by_sort_key by_code_units settled)
         (kept (set_vars (set_query "proj" (vars settled)) settled)).
Proof.
  apply (debounced_typing_recomputes_once by_code_units settled "p"
           [(100, "pr"%string); (100, "proj"%string)] 500).
  - reflexivity.
  - reflexivity.
  - simpl. repeat split; discriminate.
  - repeat constructor; simpl; lia.
  - lia.
Defined.

End ChatsMore.

(* ------------------------------------------------------------------------- *)
(** * Further properties of the debouncer and of paging *)

Module TimersMore.
Import Timers TimersFacts.

Section LetThrough.
Context {A : Type}.




End LetThrough.


End TimersMore.

Module KnowledgePaging.
Import JS Knowledge KnowledgeFacts.

(** The request that is pending is answered with the page [l] and the total
    [T]. *)
Definition page_result (l : list Item) (T : Z) : Event :=
  Settle 0 (Fulfilled (Some {| res_items := l; res_total := T |})).

(** Load More is clicked and the page arrives, once for each page. *)
Definition load_more_rounds (T : Z) (pages : list (list Item)) : list Event :=
  flat_map (fun pg => [ClickLoadMore; page_result pg T]) pages.

(** Every page but the last leaves more to load: it is not empty and the
    items held after it are fewer than the total.  [acc] are the items held
    and [prev] is the page received last. *)
Fixpoint loadable (T : Z) (acc prev : list Item) (pages : list (list Item)) : Prop :=
  match pages with
  | [] => True
  | pg :: rest =>
      prev <> [] /\ Z.of_nat (length acc) < T /\ loadable T (acc ++ pg) pg rest
  end.

(** [k] pages have been loaded one after the other and nothing is pending. *)
Definition holding (w : World) (T : Z) (acc prev : list Item) (k : nat) : Prop :=
  paging w = {| page := Z.of_nat k; items := val acc; total := val T;
                allItemsLoaded := (length prev =? 0)%nat || (T <=? Z.of_nat (length acc));
                itemsLoading := false; hasLoadedInitialPage := true |}
  /\ inflight w = []
  /\ map rq_page (issued w) = map Z.of_nat (seq 1 k)
  /\ (length prev <= length acc)%nat.

Lemma round_holds (w : World) (T : Z) (acc prev pg : list Item) (k : nat) :
  holding w T acc prev k ->
  prev <> [] -> Z.of_nat (length acc) < T ->
  holding (step (step w ClickLoadMore) (page_result pg T)) T (acc ++ pg) pg (S k).
Proof.
  intros (Hp & Hin & Hiss & Hlen) Hprev Hless.
  assert (Eprev : (length prev =? 0)%nat = false).
  { apply Nat.eqb_neq. destruct prev; [congruence | simpl; lia]. }
  assert (Eacc : (length acc =? 0)%nat = false).
  { apply Nat.eqb_neq. destruct prev; [congruence | simpl in Hlen; lia]. }
  assert (ET : (T <=? Z.of_nat (length acc)) = false) by (apply Z.leb_gt; lia).
  assert (Ec : step w ClickLoadMore
               = getItemsPage_call (set_paging (set_page (Z.of_nat k + 1) (paging w)) w)).
  { cbn [step]. unfold load_more_offered, loadMoreItems. rewrite Hp. simpl.
    rewrite Eprev, ET, Eacc. reflexivity. }
  rewrite Ec. unfold page_result. cbn [step]. unfold getItemsPage_settle.
  cbn [inflight getItemsPage_call set_paging]. rewrite Hin. cbn [app nth_error].
  cbn [caught]. rewrite resume_fulfilled. rewrite Hp.
  unfold holding. split; [|split; [|split]].
  - cbn. f_equal; [lia|]. rewrite orb_true_r. reflexivity.
  - reflexivity.
  - cbn [issued getItemsPage_call set_paging paging page set_page].
    rewrite map_app, Hiss. cbn [map rq_page]. rewrite seq_S, map_app. cbn [map].
    do 2 f_equal. lia.
  - rewrite length_app. lia.
Qed.

Lemma rounds_hold (T : Z) (pages : list (list Item)) (w : World)
  (acc prev : list Item) (k : nat) :
  holding w T acc prev k ->
  loadable T acc prev pages ->
  holding (run (load_more_rounds T pages) w) T (acc ++ concat pages)
    (List.last pages prev) (k + length pages).
Proof.
  revert w acc prev k. induction pages as [|pg pages IH]; intros w acc prev k Hw Hl.
  - simpl. now rewrite app_nil_r, Nat.add_0_r.
  - destruct Hl as (Hprev & Hless & Hl).
    change (run (load_more_rounds T (pg :: pages)) w)
      with (run (load_more_rounds T pages)
              (step (step w ClickLoadMore) (page_result pg T))).
    rewrite (JSFacts.last_cons pg prev pages). cbn [concat length].
    rewrite app_assoc, Nat.add_succ_r.
    apply (IH _ (acc ++ pg) pg (S k)); [|assumption].
    apply (round_holds w T acc prev pg k); assumption.
Qed.

Lemma mount_state (stored : option string) :
  onMount stored initial
  = let v := match stored with Some x => x | None => EmptyString end in
    let rq := {| rq_query := ""; rq_viewOption := v; rq_page := 1; rq_epoch := 1 |} in
    {| paging := {| page := 1; items := null; total := null;
                    allItemsLoaded := false; itemsLoading := true;
                    hasLoadedInitialPage := false |};
       search := {| loaded := true; query := ""; viewOption := v;
                    searchDebounceTimer := None; lastQuery := "";
                    lastViewOption := v; isInitialLoad := false |};
       timers := Timers.start;
       inflight := [rq]; issued := [rq]; epoch := 1; uncaught := 0 |}.
Proof.
  unfold onMount. rewrite KnowledgeInvariants.flush_fixed; [reflexivity|].
  intros _. split; reflexivity.
Qed.

(** X27.  Pages loaded one after the other are accumulated in order.  After
    the mount and the first page, for any number of Load More rounds in each
    of which more is left to load, the items held are the pages in the order
    they were loaded, the page cursor is the number of pages loaded, the
    requests sent asked for the pages 1, 2, 3, ... in turn, and nothing is
    pending. *)
Theorem pages_accumulate_in_order
  (stored : option string) (T : Z) (first : list Item) (rest : list (list Item)) :
  loadable T first first rest ->
  let w := run (Mount stored :: page_result first T :: load_more_rounds T rest) initial in
  items (paging w) = val (first ++ concat rest)
  /\ total (paging w) = val T
  /\ page (paging w) = Z.of_nat (S (length rest))
  /\ map rq_page (issued w) = map Z.of_nat (seq 1 (S (length rest)))
  /\ inflight w = []
  /\ itemsLoading (paging w) = false.
Proof.
  intros Hl w.
  assert (H1 : holding (run [Mount stored; page_result first T] initial) T first first 1).
  { unfold run, page_result. cbn [fold_left step]. rewrite mount_state.
    unfold getItemsPage_settle. cbn [inflight nth_error caught].
    rewrite resume_fulfilled. unfold holding. cbn. repeat split. lia. }
  pose proof (rounds_hold T rest _ first first 1 H1 Hl) as (Hp & Hin & Hiss & _).
  change (run (load_more_rounds T rest) (run [Mount stored; page_result first T] initial))
    with w in Hp, Hin, Hiss.
  rewrite Hp. cbn. repeat split; assumption.
Qed.

Lemma pages_accumulate_in_order_witness :
  let w := run (Mount None :: page_result (some_items 0 20) 45
                :: load_more_rounds 45 [some_items 20 20; some_items 40 5]) initial in
  items (paging w) = val (some_items 0 20 ++ concat [some_items 20 20; some_items 40 5])
  /\ total (paging w) = val 45
  /\ page (paging w) = 3
  /\ map rq_page (issued w) = [1; 2; 3]
  /\ inflight w = []
  /\ itemsLoading (paging w) = false.
Proof.
  apply (pages_accumulate_in_order None 45 (some_items 0 20)
           [some_items 20 20; some_items 40 5]).
  simpl. repeat split; try discriminate; lia.
Defined.

End KnowledgePaging.
